(** * Pagy Blocker: filter precompiler and per-domain override engine

    A shallow embedding of [filter_precompiler.js] (function
    [precompileFilterList]) and of the override part of
    [background/background.js] ([hashCode], [toggleRuleset],
    [toggleRulesetFuerDomain], [updateSessionRulesForDomain],
    [handleToggleBlocking], the [onStartup] listener), followed by the
    properties of the specification that were checked against them.

    JavaScript strings are sequences of UTF-16 code units; they are
    modelled as lists of integers.  JavaScript numbers that hold rule
    ids, priorities and counters stay far below 2^53 and are modelled
    as unbounded integers; the 32-bit conversions of [hashCode] are
    written out. *)

From Stdlib Require Import ZArith List Bool Lia Ascii Arith.
From Stdlib Require String.
Import ListNotations String.StringSyntax.

Abbreviation string := String.string.
Delimit Scope string_scope with string.

Set Implicit Arguments.

(** ** JavaScript strings *)

Definition jschar := Z.
Definition jsstring := list jschar.

(** An ASCII literal as a JavaScript string. *)
Definition lit (s : string) : jsstring :=
  map (fun a => Z.of_nat (nat_of_ascii a)) (String.list_ascii_of_string s).

Fixpoint jsstring_eqb (a b : jsstring) : bool :=
  match a, b with
  | [], [] => true
  | x :: a', y :: b' => (x =? y)%Z && jsstring_eqb a' b'
  | _, _ => false
  end.

Module JS.

(** [s[i]]: [None] stands for [undefined]. *)
Definition charAt (s : jsstring) (i : nat) : option jschar := nth_error s i.

(** [s.substring(a, b)]: both bounds are clamped to the length and
    swapped when out of order. *)
Definition substring (s : jsstring) (a b : nat) : jsstring :=
  let a' := Nat.min a (length s) in
  let b' := Nat.min b (length s) in
  let lo := Nat.min a' b' in
  let hi := Nat.max a' b' in
  firstn (hi - lo) (skipn lo s).

Fixpoint find_index (c : jschar) (s : jsstring) : option nat :=
  match s with
  | [] => None
  | x :: r => if (x =? c)%Z then Some 0 else option_map S (find_index c r)
  end.

(** [s.indexOf(c, from)] for a one-character needle: [None] is -1. *)
Definition indexOf (s : jsstring) (c : jschar) (from : nat) : option nat :=
  option_map (fun k => from + k) (find_index c (skipn from s)).

Definition startsWith (s p : jsstring) : bool :=
  jsstring_eqb (firstn (length p) s) p.

Definition endsWith (s p : jsstring) : bool :=
  (length p <=? length s) && jsstring_eqb (skipn (length s - length p) s) p.

(** [s.slice(0, -1)] *)
Definition slice_0_m1 (s : jsstring) : jsstring := firstn (length s - 1) s.

(** [a || d] on a number that may be missing: 0 and [undefined] are falsy. *)
Definition or_default (a : option Z) (d : Z) : Z :=
  match a with
  | Some 0%Z => d
  | Some n => n
  | None => d
  end.

(** A [while] loop.  The body may fail to make progress, so the loop
    is run with fuel and [None] means that the fuel ran out. *)
Fixpoint while {S : Type} (fuel : nat) (cond : S -> bool)
         (body : S -> option S) (s : S) : option S :=
  match fuel with
  | O => None
  | S fuel' =>
      if cond s then
        match body s with
        | Some s' => while fuel' cond body s'
        | None => None
        end
      else Some s
  end.

End JS.

(** ** filter_precompiler.js *)

Module Precompiler.

Module CONFIG.
Definition MAX_FILTER_LENGTH : nat := 1000.
End CONFIG.

Inductive ActionType := block.

Record Condition := {
  urlFilter : jsstring;
  resourceTypes : list string
}.

Record CompiledRule := {
  id : Z;
  priority : Z;
  action : ActionType;
  condition : Condition
}.

Record Stats := {
  totalLines : Z;
  processedRules : Z;
  skippedLines : Z;
  errors : Z
}.

Record Result := {
  rules : list CompiledRule;
  stats : Stats
}.

(** The [options] argument; a missing field is [None]. *)
Record Options := {
  startId : option Z;
  opt_priority : option Z
}.

(** The values [filterText] may hold. *)
Inductive jsvalue :=
| JSUndefined
| JSNull
| JSBoolean (b : bool)
| JSNumber (n : Z)
| JSString (s : jsstring)
| JSObject.

(** [typeof v === 'string'] *)
Definition typeof_string (v : jsvalue) : bool :=
  match v with
  | JSString _ => true
  | _ => false
  end.

(** What a call does: it throws, it returns, or it is still running
    when the fuel is used up. *)
Inductive outcome :=
| Threw (message : string)
| Returned (r : Result)
| OutOfFuel.

(** The mutable locals of [precompileFilterList]. *)
Record vars := {
  v_rules : list CompiledRule;
  v_ruleId : Z;
  v_processedRules : Z;
  v_skippedLines : Z;
  v_errors : Z
}.

Definition the_resourceTypes : list string :=
  ["main_frame"; "sub_frame"; "stylesheet"; "script"; "image"; "font";
   "object"; "xmlhttprequest"; "ping"; "csp_report"; "media"; "websocket";
   "other"]%string.

Definition is_trim_char (c : jschar) : bool :=
  ((c =? 32) || (c =? 9) || (c =? 13))%Z.

Definition trim_char_at (line : jsstring) (i : nat) : bool :=
  match JS.charAt line i with
  | Some c => is_trim_char c
  | None => false
  end.

(** Lines 82-98: the two trimming loops and the final [substring]. *)
Definition trim (line : jsstring) : option jsstring :=
  let fuel := S (length line) in
  match JS.while fuel
          (fun start => (start <? length line) && trim_char_at line start)
          (fun start => Some (S start)) 0 with
  | None => None
  | Some start =>
      match JS.while fuel
              (fun end_ => (start <? end_) && trim_char_at line (end_ - 1))
              (fun end_ => Some (end_ - 1)) (length line) with
      | None => None
      | Some end_ =>
          Some (if (0 <? start) || (end_ <? length line)
                then JS.substring line start end_
                else line)
      end
  end.

(** Lines 115-122: the scan for a forbidden character. *)
Fixpoint isValid (domain : jsstring) : bool :=
  match domain with
  | [] => true
  | char :: rest =>
      if ((char =? 42) || (char =? 47) || (char =? 0))%Z then false
      else isValid rest
  end.

Definition skip (v : vars) : vars :=
  {| v_rules := v_rules v;
     v_ruleId := v_ruleId v;
     v_processedRules := v_processedRules v;
     v_skippedLines := (v_skippedLines v + 1)%Z;
     v_errors := v_errors v |}.

Definition mkRule (i p : Z) (trimmed : jsstring) : CompiledRule :=
  {| id := i;
     priority := p;
     action := block;
     condition := {| urlFilter := trimmed;
                     resourceTypes := the_resourceTypes |} |}.

Definition emit (p : Z) (trimmed : jsstring) (v : vars) : vars :=
  {| v_rules := v_rules v ++ [mkRule (v_ruleId v) p trimmed];
     v_ruleId := (v_ruleId v + 1)%Z;
     v_processedRules := (v_processedRules v + 1)%Z;
     v_skippedLines := v_skippedLines v;
     v_errors := v_errors v |}.

Definition first_is (s : jsstring) (c : jschar) : bool :=
  match JS.charAt s 0 with
  | Some x => (x =? c)%Z
  | None => false
  end.

(** How one iteration of the main loop ends: it falls through to
    [lineStart = lineEnd + 1], or it leaves through [continue]. *)
Inductive exit := FallThrough | Continue.

(** Lines 100-147, on the trimmed line. *)
Definition classify (p : Z) (trimmed : jsstring) (v : vars) : exit * vars :=
  if (length trimmed =? 0) || first_is trimmed 35%Z || first_is trimmed 33%Z
     || first_is trimmed 91%Z then
    (FallThrough, skip v)
  else if (4 <? length trimmed) && JS.startsWith trimmed (lit "||"%string)
          && JS.endsWith trimmed (lit "^"%string) then
    let domain := JS.substring trimmed 2 (length trimmed - 1) in
    if (length domain =? 0) || (CONFIG.MAX_FILTER_LENGTH <? length domain) then
      (Continue, skip v)
    else if isValid domain then
      (FallThrough, emit p trimmed v)
    else
      (FallThrough, skip v)
  else
    (FallThrough, skip v).

(** Lines 78-79: the raw line between [lineStart] and [lineEnd], less
    one trailing carriage return. *)
Definition extract (filterText : jsstring) (lineStart lineEnd : nat) : jsstring :=
  let line := JS.substring filterText lineStart lineEnd in
  if JS.endsWith line [13%Z]
  then JS.slice_0_m1 line else line.

(** One iteration of the main loop (lines 72-150).  [continue] goes
    back to the loop test without updating [lineStart]. *)
Definition loopBody (filterText : jsstring) (p : Z) (s : nat * vars)
  : option (nat * vars) :=
  let '(lineStart, v) := s in
  let textLength := length filterText in
  let lineEnd :=
    match JS.indexOf filterText 10%Z lineStart with
    | Some i => i
    | None => textLength
    end in
  match trim (extract filterText lineStart lineEnd) with
  | None => None
  | Some trimmed =>
      match classify p trimmed v with
      | (FallThrough, v') => Some (lineEnd + 1, v')
      | (Continue, v') => Some (lineStart, v')
      end
  end.

Definition finish (v : vars) : Result :=
  {| rules := v_rules v;
     stats := {| totalLines := (v_processedRules v + v_skippedLines v)%Z;
                 processedRules := v_processedRules v;
                 skippedLines := v_skippedLines v;
                 errors := v_errors v |} |}.

Definition init (options : Options) : vars :=
  {| v_rules := [];
     v_ruleId := JS.or_default (startId options) 1%Z;
     v_processedRules := 0%Z;
     v_skippedLines := 0%Z;
     v_errors := 0%Z |}.

Definition precompileFilterList (fuel : nat) (filterText : jsvalue)
           (options : Options) : outcome :=
  match filterText with
  | JSString text =>
      if length text =? 0 then
        Returned {| rules := [];
                    stats := {| totalLines := 0%Z; processedRules := 0%Z;
                                skippedLines := 0%Z; errors := 0%Z |} |}
      else
        match JS.while fuel
                (fun s => fst s <? length text)
                (loopBody text (JS.or_default (opt_priority options) 1%Z))
                (0, init options) with
        | Some (_, v) => Returned (finish v)
        | None => OutOfFuel
        end
  | _ => Threw "Filter text must be a string"%string
  end.

End Precompiler.

(** ** background/background.js: the override engine *)

Module Background.

(** *** hashCode *)

(** ToInt32 of a JavaScript number holding an integer. *)
Definition toInt32 (z : Z) : Z := ((z + 2 ^ 31) mod 2 ^ 32 - 2 ^ 31)%Z.

(** [a << n] and [a & b] work on 32-bit integers. *)
Definition shl32 (a n : Z) : Z := toInt32 (Z.shiftl (toInt32 a) n).
Definition and32 (a b : Z) : Z := Z.land (toInt32 a) (toInt32 b).

(** One round of the loop of [hashCode]. *)
Definition hashRound (hash : Z) (char : jschar) : Z :=
  let hash := (shl32 hash 5 - hash + char)%Z in
  and32 hash hash.

Definition hashCode (str : jsstring) : Z :=
  Z.abs (fold_left hashRound str 0%Z).

(** *** The host: storage, blocking engine, tabs *)

Inductive RuleAction := allow.

Record RuleCondition := {
  initiatorDomains : option (list jsstring);
  requestDomains : option (list jsstring);
  resourceTypes : list string
}.

Record SessionRule := {
  id : Z;
  priority : Z;
  action : RuleAction;
  condition : RuleCondition
}.

(** The keys of [chrome.storage.local] the worker uses; [None] is a
    key that was never written. *)
Record Storage := {
  isEnabled : option bool;
  lastUpdate : option Z;
  version : option string;
  disabledDomains : option (list jsstring)
}.

(** The keys one [chrome.storage.local.set] call writes.  Every call
    of the worker also writes [lastUpdate: Date.now()]. *)
Inductive items :=
| items_isEnabled (b : bool)
| items_install (b : bool) (v : string)
| items_disabledDomains (l : list jsstring).

(** The asynchronous host calls. *)
Inductive call :=
| storage_local_get
| storage_local_set (i : items)
| updateSessionRules (removeRuleIds : list Z) (addRules : list SessionRule)
| updateEnabledRulesets (enableRulesetIds disableRulesetIds : list string)
| tabs_reload (tabId : Z).

(** What the promise of a host call settles to. *)
Inductive reply :=
| Rejected (message : string)
| Resolved
| ResolvedItems (s : Storage).

(** Modelled from the spec: the blocking engine is an external
    collaborator.  An add call for an id that already exists is
    either rejected or a no-op; which one is a property of the host. *)
Inductive duplicate_policy := RejectDuplicate | IgnoreDuplicate.

Record world := {
  storage : Storage;
  sessionRules : list SessionRule;
  enabledRulesets : list string;
  (** what [Date.now()] reads during a run; see [Clock.at_time] for the
      time that passes between two runs *)
  clock : Z;
  on_duplicate : duplicate_policy;
  (** the fate of the coming host calls, [true] for a call that fails *)
  faults : list bool;
  (** the host calls made so far, oldest first, with their success *)
  trace : list (call * bool)
}.

Definition write_items (i : items) (now : Z) (s : Storage) : Storage :=
  match i with
  | items_isEnabled b =>
      {| isEnabled := Some b; lastUpdate := Some now;
         version := version s; disabledDomains := disabledDomains s |}
  | items_install b v =>
      {| isEnabled := Some b; lastUpdate := Some now;
         version := Some v; disabledDomains := disabledDomains s |}
  | items_disabledDomains l =>
      {| isEnabled := isEnabled s; lastUpdate := Some now;
         version := version s; disabledDomains := Some l |}
  end.

Definition has_id (i : Z) (table : list SessionRule) : bool :=
  existsb (fun r => (id r =? i)%Z) table.

Definition mem_id (i : Z) (ids : list Z) : bool :=
  existsb (fun j => (j =? i)%Z) ids.

Definition string_mem (x : string) (l : list string) : bool :=
  existsb (String.eqb x) l.

(** Modelled from the spec: [removeSessionRules] drops the rules with
    the given ids and ignores ids that are not there. *)
Definition remove_rules (ids : list Z) (table : list SessionRule)
  : list SessionRule :=
  filter (fun r => negb (mem_id (id r) ids)) table.

(** Modelled from the spec: [addSessionRules] appends the rules;
    a rule whose id is already in the table makes the call fail
    ([None]) or is left out, following the policy of the host. *)
Fixpoint add_rules (pol : duplicate_policy) (rules : list SessionRule)
         (table : list SessionRule) : option (list SessionRule) :=
  match rules with
  | [] => Some table
  | r :: rest =>
      if has_id (id r) table then
        match pol with
        | RejectDuplicate => None
        | IgnoreDuplicate => add_rules pol rest table
        end
      else add_rules pol rest (table ++ [r])
  end.

(** Modelled from the spec: [enableRuleset] and [disableRuleset]. *)
Definition update_rulesets (enable disable : list string)
           (l : list string) : list string :=
  filter (fun x => negb (string_mem x disable)) l
  ++ filter (fun x => negb (string_mem x l)) enable.

Definition set_state (w : world) (st : Storage) (rs : list SessionRule)
           (en : list string) : world :=
  {| storage := st; sessionRules := rs; enabledRulesets := en;
     clock := clock w; on_duplicate := on_duplicate w;
     faults := faults w; trace := trace w |}.

(** The effect of a host call that the host does carry out. *)
Definition perform (c : call) (w : world) : reply * world :=
  match c with
  | storage_local_get => (ResolvedItems (storage w), w)
  | storage_local_set i =>
      (Resolved,
       set_state w (write_items i (clock w) (storage w))
                 (sessionRules w) (enabledRulesets w))
  | updateSessionRules removeRuleIds addRules =>
      match add_rules (on_duplicate w) addRules
              (remove_rules removeRuleIds (sessionRules w)) with
      | Some table =>
          (Resolved, set_state w (storage w) table (enabledRulesets w))
      | None => (Rejected "Rule does not have a unique ID"%string, w)
      end
  | updateEnabledRulesets enable disable =>
      (Resolved,
       set_state w (storage w) (sessionRules w)
                 (update_rulesets enable disable (enabledRulesets w)))
  | tabs_reload _ => (Resolved, w)
  end.

Definition is_rejected (r : reply) : bool :=
  match r with Rejected _ => true | _ => false end.

Definition next_fault (w : world) : bool * list bool :=
  match faults w with
  | [] => (false, [])
  | b :: rest => (b, rest)
  end.

Definition log_call (c : call) (ok : bool) (rest : list bool) (w : world)
  : world :=
  {| storage := storage w; sessionRules := sessionRules w;
     enabledRulesets := enabledRulesets w; clock := clock w;
     on_duplicate := on_duplicate w; faults := rest;
     trace := trace w ++ [(c, ok)] |}.

(** One host call: it fails when the host is scripted to fail it,
    and otherwise has its effect. *)
Definition exec (c : call) (w : world) : reply * world :=
  let '(fail, rest) := next_fault w in
  if fail then (Rejected "host error"%string, log_call c false rest w)
  else
    let '(r, w') := perform c w in
    (r, log_call c (negb (is_rejected r)) rest w').

(** *** Asynchronous functions *)

(** An async function runs up to its next awaited host call, where
    it may be suspended; it ends by returning or by throwing. *)
Inductive proc (A : Type) :=
| Ret (a : A)
| Throw (message : string)
| Await (c : call) (k : reply -> proc A).

Arguments Ret {A} a.
Arguments Throw {A} message.
Arguments Await {A} c k.

Fixpoint bind {A B : Type} (p : proc A) (f : A -> proc B) : proc B :=
  match p with
  | Ret a => f a
  | Throw e => Throw e
  | Await c k => Await c (fun r => bind (k r) f)
  end.

(** [try { p } catch (error) { h error }] *)
Fixpoint try_catch {A : Type} (p : proc A) (h : string -> proc A) : proc A :=
  match p with
  | Ret a => Ret a
  | Throw e => h e
  | Await c k => Await c (fun r => try_catch (k r) h)
  end.

(** [await] of a host call: a rejected promise throws. *)
Definition await (c : call) : proc reply :=
  Await c (fun r =>
    match r with
    | Rejected e => Throw e
    | _ => Ret r
    end).

(** A host call whose promise is dropped: its outcome is not seen. *)
Definition no_await (c : call) : proc unit :=
  Await c (fun _ => Ret tt).

(** Running an async function to its end with nothing interleaved. *)
Fixpoint run {A : Type} (p : proc A) (w : world) : (A + string) * world :=
  match p with
  | Ret a => (inl a, w)
  | Throw e => (inr e, w)
  | Await c k => let '(r, w') := exec c w in run (k r) w'
  end.

Notation "x <- p ;; q" := (bind p (fun x => q))
  (at level 61, p at next level, right associativity).

Definition empty_storage : Storage :=
  {| isEnabled := None; lastUpdate := None; version := None;
     disabledDomains := None |}.

(** The object a resolved [chrome.storage.local.get] hands back. *)
Definition items_of (r : reply) : Storage :=
  match r with
  | ResolvedItems s => s
  | _ => empty_storage
  end.

(** *** The worker *)

Definition all_resourceTypes : list string :=
  ["main_frame"; "sub_frame"; "stylesheet"; "script"; "image"; "font";
   "object"; "xmlhttprequest"; "ping"; "csp_report"; "media"; "websocket";
   "other"]%string.

Definition ruleset_1 : string := "ruleset_1"%string.

(** Lines 570-587. *)
Definition toggleRuleset (istAktiviert : bool) : proc unit :=
  try_catch
    (_ <- await (updateEnabledRulesets
                   (if istAktiviert then [ruleset_1] else [])
                   (if istAktiviert then [] else [ruleset_1])) ;;
     _ <- no_await (storage_local_set (items_isEnabled istAktiviert)) ;;
     Ret tt)
    (fun error => Ret tt).

(** The two allow rules of lines 636-659. *)
Definition initiatorRule (regelId : Z) (domain : jsstring) : SessionRule :=
  {| id := regelId;
     priority := 100000;
     action := allow;
     condition := {| initiatorDomains := Some [domain];
                     requestDomains := None;
                     resourceTypes := all_resourceTypes |} |}.

Definition requestRule (subdomainRegelId : Z) (domain : jsstring) : SessionRule :=
  {| id := subdomainRegelId;
     priority := 100000;
     action := allow;
     condition := {| initiatorDomains := None;
                     requestDomains := Some [domain];
                     resourceTypes := all_resourceTypes |} |}.

(** Lines 622-667. *)
Definition updateSessionRulesForDomain (domain : jsstring)
           (istAktiviert : bool) : proc unit :=
  try_catch
    (let regelId := hashCode domain in
     if istAktiviert then
       let subdomainRegelId := (regelId + 1)%Z in
       _ <- await (updateSessionRules [regelId; subdomainRegelId] []) ;;
       Ret tt
     else
       _ <- await (updateSessionRules [] [initiatorRule regelId domain]) ;;
       let subdomainRegelId := (regelId + 1)%Z in
       _ <- await (updateSessionRules []
                     [requestRule subdomainRegelId domain]) ;;
       Ret tt)
    (fun error => Ret tt).

(** [result.disabledDomains || []] *)
Definition or_empty (l : option (list jsstring)) : list jsstring :=
  match l with
  | Some l => l
  | None => []
  end.

Definition includes (l : list jsstring) (domain : jsstring) : bool :=
  existsb (fun d => jsstring_eqb d domain) l.

(** Lines 594-604: the new value of the list. *)
Definition mutate (domain : jsstring) (istAktiviert : bool)
           (deaktivierteDomains : list jsstring) : list jsstring :=
  if istAktiviert then
    filter (fun d => negb (jsstring_eqb d domain)) deaktivierteDomains
  else if negb (includes deaktivierteDomains domain) then
    deaktivierteDomains ++ [domain]
  else deaktivierteDomains.

(** Lines 590-619. *)
Definition toggleRulesetFuerDomain (domain : jsstring) (istAktiviert : bool)
  : proc unit :=
  try_catch
    (result <- await storage_local_get ;;
     let deaktivierteDomains := or_empty (disabledDomains (items_of result)) in
     let deaktivierteDomains := mutate domain istAktiviert deaktivierteDomains in
     _ <- await (storage_local_set (items_disabledDomains deaktivierteDomains)) ;;
     _ <- updateSessionRulesForDomain domain istAktiviert ;;
     Ret tt)
    (fun error => Ret tt).

(** Lines 682-695; the version string comes from the manifest. *)
Definition initialisieren (manifest_version : string) : proc unit :=
  _ <- no_await (storage_local_set (items_install true manifest_version)) ;;
  _ <- toggleRuleset true ;;
  Ret tt.

(** Lines 699-704: the [onStartup] listener;
    [result.isEnabled !== false]. *)
Definition onStartup : proc unit :=
  result <- await storage_local_get ;;
  let istAktiviert :=
    match isEnabled (items_of result) with
    | Some false => false
    | _ => true
    end in
  _ <- toggleRuleset istAktiviert ;;
  Ret tt.

(** The [toggleBlocking] message: [isEnabled] is [None] when it is
    not a boolean, [domain] and [tabId] are [None] when missing. *)
Record request := {
  req_isEnabled : option bool;
  req_domain : option jsstring;
  req_tabId : option Z
}.

Inductive response :=
| response_error (error : string)
| response_success (isEnabled : bool).

Definition truthy_string (s : option jsstring) : bool :=
  match s with
  | Some (_ :: _) => true
  | _ => false
  end.

Definition truthy_number (n : option Z) : bool :=
  match n with
  | Some 0%Z => false
  | Some _ => true
  | None => false
  end.

Definition or_empty_string (s : option jsstring) : jsstring :=
  match s with Some s => s | None => [] end.

Definition or_zero (n : option Z) : Z :=
  match n with Some n => n | None => 0%Z end.

(** Lines 712-737; the stats cache it clears on success is added in
    [Popup.handleToggleBlocking_statsCache]. *)
Definition handleToggleBlocking (request : request) : proc response :=
  match req_isEnabled request with
  | None => Ret (response_error "Ungültige Anfrage"%string)
  | Some enabled =>
      try_catch
        (_ <- (if truthy_string (req_domain request) then
                 _ <- toggleRulesetFuerDomain (or_empty_string (req_domain request)) enabled ;;
                 if truthy_number (req_tabId request) then
                   _ <- await (tabs_reload (or_zero (req_tabId request))) ;;
                   Ret tt
                 else Ret tt
               else toggleRuleset enabled) ;;
         Ret (response_success enabled))
        (fun error => Ret (response_error error))
  end.

(** *** The persisted exemption set and the override pair *)

Definition exemptionSet (w : world) : list jsstring :=
  or_empty (disabledDomains (storage w)).

(** The rules of the table that have one of the two ids of a domain. *)
Definition rules_at (domain : jsstring) (table : list SessionRule)
  : list SessionRule :=
  filter (fun r => (id r =? hashCode domain)%Z
                   || (id r =? hashCode domain + 1)%Z) table.

Definition overridePair (domain : jsstring) : list SessionRule :=
  [initiatorRule (hashCode domain) domain;
   requestRule (hashCode domain + 1) domain].

(** How often a domain occurs in a list. *)
Definition occurrences (domain : jsstring) (l : list jsstring) : nat :=
  length (filter (fun d => jsstring_eqb d domain) l).

(** The session-rule table after the calls of
    [updateSessionRulesForDomain], when the host fails none of them
    of its own: a rejected first add ends the function, so the
    second add is not made. *)
Definition table_after (pol : duplicate_policy) (domain : jsstring)
           (istAktiviert : bool) (table : list SessionRule)
  : list SessionRule :=
  let regelId := hashCode domain in
  if istAktiviert then remove_rules [regelId; (regelId + 1)%Z] table
  else
    match add_rules pol [initiatorRule regelId domain] table with
    | None => table
    | Some table1 =>
        match add_rules pol [requestRule (regelId + 1) domain] table1 with
        | None => table1
        | Some table2 => table2
        end
    end.

Definition is_updateSessionRules (c : call) : bool :=
  match c with
  | updateSessionRules _ _ => true
  | _ => false
  end.

(** A world as a browser session starts it: what the storage holds
    is kept, the session rules are gone. *)
Definition fresh_session (st : Storage) (pol : duplicate_policy) : world :=
  {| storage := st; sessionRules := []; enabledRulesets := [];
     clock := 0; on_duplicate := pol; faults := []; trace := [] |}.

Definition with_faults (fl : list bool) (w : world) : world :=
  {| storage := storage w; sessionRules := sessionRules w;
     enabledRulesets := enabledRulesets w; clock := clock w;
     on_duplicate := on_duplicate w; faults := fl; trace := trace w |}.

(** An async function all of whose host calls pass a test. *)
Fixpoint only_calls {A : Type} (ok : call -> bool) (p : proc A) : Prop :=
  match p with
  | Await c k => ok c = true /\ forall r, only_calls ok (k r)
  | _ => True
  end.

(** The host calls that touch neither the session rules nor the
    persisted exemption set. *)
Definition leaves_overrides (c : call) : bool :=
  match c with
  | updateSessionRules _ _ => false
  | storage_local_set (items_disabledDomains _) => false
  | _ => true
  end.

(** Whether the host is scripted to fail the n-th coming call. *)
Definition fails_at (n : nat) (w : world) : bool := nth n (faults w) false.

(** The toggle message of the popup for a domain, without a tab. *)
Definition toggle_request (domain : jsstring) (enabled : bool) : request :=
  {| req_isEnabled := Some enabled;
     req_domain := Some domain;
     req_tabId := None |}.

Definition exempting (l : list jsstring) : Storage :=
  {| isEnabled := Some true; lastUpdate := Some 0%Z; version := None;
     disabledDomains := Some l |}.

End Background.

(** ** Interleaving of two handlers *)

Module Scheduler.
Import Background.

(** Modelled from the spec: the worker is single-threaded and
    cooperative; a handler runs without interruption up to its next
    awaited host call and may be suspended there, so two handlers
    interleave at their host calls and nowhere else.  Each host call
    acts on the shared state in one piece. *)
Inductive tid := First | Second.

Record system := {
  first : proc unit;
  second : proc unit;
  shared : world
}.

(** The scheduled handler performs its pending host call and runs on
    to the next one; a handler that has ended cannot be scheduled. *)
Definition resume (p : proc unit) (w : world) : option (proc unit * world) :=
  match p with
  | Await c k => let '(r, w') := exec c w in Some (k r, w')
  | _ => None
  end.

Definition step (t : tid) (s : system) : option system :=
  match t with
  | First =>
      match resume (first s) (shared s) with
      | Some (p, w) => Some {| first := p; second := second s; shared := w |}
      | None => None
      end
  | Second =>
      match resume (second s) (shared s) with
      | Some (p, w) => Some {| first := first s; second := p; shared := w |}
      | None => None
      end
  end.

Fixpoint run_schedule (schedule : list tid) (s : system) : option system :=
  match schedule with
  | [] => Some s
  | t :: rest =>
      match step t s with
      | Some s' => run_schedule rest s'
      | None => None
      end
  end.

Definition ended (p : proc unit) : bool :=
  match p with
  | Await _ _ => false
  | _ => true
  end.

Definition finished (s : system) : bool :=
  ended (first s) && ended (second s).

(** Two toggles for one domain, started together. *)
Definition two_toggles (domain : jsstring) (enabled1 enabled2 : bool)
           (w : world) : system :=
  {| first := toggleRulesetFuerDomain domain enabled1;
     second := toggleRulesetFuerDomain domain enabled2;
     shared := w |}.

(** The same two toggles one after the other. *)
Definition one_after_the_other (domain : jsstring) (enabled1 enabled2 : bool)
           (w : world) : world :=
  snd (run (toggleRulesetFuerDomain domain enabled2)
           (snd (run (toggleRulesetFuerDomain domain enabled1) w))).

(** A toggle once its read has resolved with the items [st]:
    lines 594-618. *)
Definition after_read (domain : jsstring) (enabled : bool) (st : Storage)
  : proc unit :=
  try_catch
    (_ <- await (storage_local_set
                   (items_disabledDomains
                      (mutate domain enabled
                              (or_empty (disabledDomains st))))) ;;
     _ <- updateSessionRulesForDomain domain enabled ;;
     Ret tt)
    (fun error => Ret tt).

(** Where a toggle stands: before its read, between its read and
    its write, or behind its write. *)
Inductive stage :=
| BeforeRead
| BeforeWrite (st : Storage)
| AfterWrite.

Definition same_but (domain : jsstring) (l l0 : list jsstring) : Prop :=
  forall x, x <> domain -> (In x l <-> In x l0).

Definition at_stage (domain : jsstring) (enabled : bool)
           (l0 : list jsstring) (s : stage) (p : proc unit) : Prop :=
  match s with
  | BeforeRead => p = toggleRulesetFuerDomain domain enabled
  | BeforeWrite st =>
      p = after_read domain enabled st
      /\ same_but domain (or_empty (disabledDomains st)) l0
  | AfterWrite => only_calls is_updateSessionRules p
  end.

Definition behind_write (s : stage) : bool :=
  match s with
  | AfterWrite => true
  | _ => false
  end.

(** What holds all along a run of two toggles for [domain] that
    started from the exemption set [l0]. *)
Definition invariant (domain : jsstring) (enabled1 enabled2 : bool)
           (l0 : list jsstring) (s : system) : Prop :=
  faults (shared s) = []
  /\ same_but domain (exemptionSet (shared s)) l0
  /\ exists s1 s2,
       at_stage domain enabled1 l0 s1 (first s)
       /\ at_stage domain enabled2 l0 s2 (second s)
       /\ (behind_write s1 || behind_write s2 = true ->
           includes (exemptionSet (shared s)) domain = negb enabled1
           \/ includes (exemptionSet (shared s)) domain = negb enabled2).

End Scheduler.

(** ** The validator and the line structure in the words of the specification *)

Module LineSpec.
Import Precompiler.

(** Dropping the characters space, tab and carriage return from the
    front, and from both ends. *)
Fixpoint drop_front (s : jsstring) : jsstring :=
  match s with
  | [] => []
  | c :: r => if is_trim_char c then drop_front r else s
  end.

Definition trimmed (line : jsstring) : jsstring :=
  rev (drop_front (rev (drop_front line))).

(** The text cut at every line feed; a line feed at the very end
    starts no further line. *)
Fixpoint cut_lines (text : jsstring) : list jsstring :=
  match text with
  | [] => []
  | c :: r =>
      if (c =? 10)%Z then [] :: cut_lines r
      else
        match cut_lines r with
        | [] => [[c]]
        | l :: ls => (c :: l) :: ls
        end
  end.

(** One trailing carriage return is line-ending noise. *)
Definition without_cr (line : jsstring) : jsstring :=
  match rev line with
  | c :: r => if (c =? 13)%Z then rev r else line
  | [] => line
  end.

Definition logicalLines (text : jsstring) : list jsstring :=
  map without_cr (cut_lines text).

Inductive lineClass := Ignorable | WellFormed | Rejected.

Definition ignorable (t : jsstring) : bool :=
  match t with
  | [] => true
  | c :: _ => ((c =? 35) || (c =? 33) || (c =? 91))%Z
  end.

(** The substring strictly between the anchors. *)
Definition domainBody (t : jsstring) : jsstring := removelast (skipn 2 t).

Definition anchored (t : jsstring) : bool :=
  (4 <? length t)
  && match t with
     | a :: b :: _ => ((a =? 124) && (b =? 124))%Z
     | _ => false
     end
  && match rev t with
     | z :: _ => (z =? 94)%Z
     | [] => false
     end.

Definition allowed_char (c : jschar) : bool :=
  negb ((c =? 42) || (c =? 47) || (c =? 0))%Z.

Definition wellFormed (maxLength : nat) (t : jsstring) : bool :=
  anchored t
  && negb (length (domainBody t) =? 0)
  && (length (domainBody t) <=? maxLength)
  && forallb allowed_char (domainBody t).

Definition classOf (maxLength : nat) (t : jsstring) : lineClass :=
  if ignorable t then Ignorable
  else if wellFormed maxLength t then WellFormed
  else Rejected.

(** A line that is not ignorable, carries both anchors and has a
    domain body above the maximum length. *)
Definition overlong (maxLength : nat) (t : jsstring) : bool :=
  negb (ignorable t) && anchored t && (maxLength <? length (domainBody t)).

(** What one line does to the locals when the compiler goes through
    it once. *)
Definition lineEffect (p : Z) (v : vars) (line : jsstring) : vars :=
  match classOf CONFIG.MAX_FILTER_LENGTH (trimmed line) with
  | WellFormed => emit p (trimmed line) v
  | _ => skip v
  end.

(** The trimmed lines that are well-formed patterns, in input order. *)
Definition patterns (text : jsstring) : list jsstring :=
  filter (wellFormed CONFIG.MAX_FILTER_LENGTH)
         (map trimmed (logicalLines text)).

(** No line of the text is overlong. *)
Definition no_overlong (text : jsstring) : bool :=
  forallb (fun l => negb (overlong CONFIG.MAX_FILTER_LENGTH (trimmed l)))
          (logicalLines text).

(** The rules for a list of patterns, numbered from [start]. *)
Fixpoint numbered (start p : Z) (ts : list jsstring) : list CompiledRule :=
  match ts with
  | [] => []
  | t :: rest => mkRule start p t :: numbered (start + 1) p rest
  end.

End LineSpec.

(** ** Sample inputs *)

Module Samples.

Definition line_feed : jsstring := [10%Z].

(** A comment, a padded pattern, two patterns with a forbidden
    character, an empty line and a short pattern. *)
Definition small_list : jsstring :=
  lit "! comment"%string ++ line_feed
  ++ lit "  ||ads.example.com^ "%string ++ [13%Z] ++ line_feed
  ++ lit "||*.example.com^"%string ++ line_feed
  ++ lit "||example.com/path^"%string ++ line_feed
  ++ line_feed
  ++ lit "||b.c^"%string ++ line_feed.

(** A pattern whose domain body has 1001 characters. *)
Definition overlong_line : jsstring :=
  lit "||"%string ++ repeat 97%Z 1001 ++ lit "^"%string.

Definition list_with_overlong_line : jsstring :=
  lit "||ads.example.com^"%string ++ line_feed ++ overlong_line.

Definition x_com : jsstring := lit "x.com"%string.
Definition an_com : jsstring := lit "an.com"%string.
Definition c0_com : jsstring := lit "c0.com"%string.
Definition x_cn : jsstring := lit "x.cn"%string.
Definition x_co : jsstring := lit "x.co"%string.
Definition elevh_io : jsstring := lit "elevh.io"%string.

(** Two toggles for x.com, to exempt it and to block it again,
    whose reads both come before either write. *)
Definition overlapping_schedule : list Scheduler.tid :=
  [Scheduler.First; Scheduler.Second; Scheduler.First; Scheduler.Second;
   Scheduler.Second; Scheduler.First; Scheduler.First].

(** Two toggles for x.com, to block it and to exempt it again: both
    read, then each writes, then each makes its session-rule calls. *)
Definition stale_write_schedule : list Scheduler.tid :=
  [Scheduler.First; Scheduler.Second; Scheduler.First; Scheduler.Second;
   Scheduler.First; Scheduler.Second; Scheduler.Second].

Definition y_com : jsstring := lit "y.com"%string.

Definition four_patterns : jsstring :=
  lit "||a.example^"%string ++ line_feed
  ++ lit "||b.example^"%string ++ line_feed
  ++ lit "||c.example^"%string ++ line_feed
  ++ lit "||d.example^"%string ++ line_feed.

End Samples.

(** ** Further parts of the two files *)

Module Cli.

(** What an option of [parseArgs] holds: [null] at the start,
    [undefined] after a flag that had no argument behind it. *)
Inductive value :=
| null
| undefined
| given (s : string).

Record options := {
  input : value;
  output : value;
  help : bool
}.

Definition set_help (o : options) : options :=
  {| input := input o; output := output o; help := true |}.

Definition set_input (v : value) (o : options) : options :=
  {| input := v; output := output o; help := help o |}.

Definition set_output (v : value) (o : options) : options :=
  {| input := input o; output := v; help := help o |}.

Definition is_help (arg : string) : bool :=
  (String.eqb arg "--help" || String.eqb arg "-h")%string.

Definition is_input (arg : string) : bool :=
  (String.eqb arg "--input" || String.eqb arg "-i")%string.

Definition is_output (arg : string) : bool :=
  (String.eqb arg "--output" || String.eqb arg "-o")%string.

(** The loop of lines 175-184 from index [i] on, on the arguments
    from there; [args[++i]] takes the next argument, whatever it is,
    and is [undefined] behind the last one. *)
Fixpoint parseLoop (args : list string) (o : options) : options :=
  match args with
  | [] => o
  | arg :: rest =>
      if is_help arg then parseLoop rest (set_help o)
      else if is_input arg then
        match rest with
        | [] => set_input undefined o
        | x :: rest' => parseLoop rest' (set_input (given x) o)
        end
      else if is_output arg then
        match rest with
        | [] => set_output undefined o
        | x :: rest' => parseLoop rest' (set_output (given x) o)
        end
      else parseLoop rest o
  end.

(** Lines 167-187, on [process.argv.slice(2)]. *)
Definition parseArgs (args : list string) : options :=
  parseLoop args {| input := null; output := null; help := false |}.

(** A command line written as a sequence of options. *)
Inductive word :=
| w_help (flag : string)
| w_input (flag : string) (file : string)
| w_output (flag : string) (file : string).

Definition spelled (w : word) : bool :=
  match w with
  | w_help f => is_help f
  | w_input f _ => is_input f
  | w_output f _ => is_output f
  end.

Definition render (w : word) : list string :=
  match w with
  | w_help f => [f]
  | w_input f x => [f; x]
  | w_output f x => [f; x]
  end.

Fixpoint last_input (ws : list word) (v : value) : value :=
  match ws with
  | [] => v
  | w_input _ x :: rest => last_input rest (given x)
  | _ :: rest => last_input rest v
  end.

Fixpoint last_output (ws : list word) (v : value) : value :=
  match ws with
  | [] => v
  | w_output _ x :: rest => last_output rest (given x)
  | _ :: rest => last_output rest v
  end.

Definition has_help (ws : list word) : bool :=
  existsb (fun w => match w with w_help _ => true | _ => false end) ws.

End Cli.

Module MLData.

(** An entry of [MLDataProcessor.trainingData]; the payload is left
    open. *)
Record entry (D : Type) := {
  type : string;
  data : D;
  timestamp : Z
}.

Arguments type {D} e.
Arguments data {D} e.
Arguments timestamp {D} e.

(** [a.slice(-n)] for a positive n: the last n elements. *)
Definition slice_last {A : Type} (n : nat) (a : list A) : list A :=
  skipn (length a - n) a.

(** Lines 500-512: [storeTrainingData], with [now] for [Date.now()]. *)
Definition storeTrainingData {D : Type} (ty : string) (d : D) (now : Z)
           (trainingData : list (entry D)) : list (entry D) :=
  let trainingData :=
    trainingData ++ [{| type := ty; data := d; timestamp := now |}] in
  if 5000 <? length trainingData then slice_last 2500 trainingData
  else trainingData.

(** Lines 514-521: the in-memory part of [cleanupOldData]. *)
Definition cleanupTrainingData {D : Type} (now : Z)
           (trainingData : list (entry D)) : list (entry D) :=
  let maxAge := (24 * 60 * 60 * 1000)%Z in
  let cutoff := (now - maxAge)%Z in
  filter (fun item => (cutoff <? timestamp item)%Z) trainingData.

(** What changes [trainingData]: a call of [storeTrainingData] or a
    run of [cleanupOldData], each at its time. *)
Inductive change (D : Type) :=
| store (ty : string) (d : D) (now : Z)
| cleanup (now : Z).

Arguments store {D} ty d now.
Arguments cleanup {D} now.

Definition apply_change {D : Type} (trainingData : list (entry D))
           (c : change D) : list (entry D) :=
  match c with
  | store ty d now => storeTrainingData ty d now trainingData
  | cleanup now => cleanupTrainingData now trainingData
  end.

End MLData.

Module Texts.
Import Precompiler LineSpec.

(** A list of lines as a text, every line ended by a line feed. *)
Definition unlines (ls : list jsstring) : jsstring :=
  concat (map (fun l => l ++ [10%Z]) ls).

(** The patterns a result stands for. *)
Definition filtersOf (r : Result) : list jsstring :=
  map (fun rule => urlFilter (condition rule)) (rules r).

(** The first character, if there is one, is not one that trimming
    drops. *)
Definition starts_clean (t : jsstring) : bool :=
  match t with
  | [] => true
  | c :: _ => negb (is_trim_char c)
  end.

(** The hash of Java strings: the characters as digits to the base 31. *)
Definition poly31 (h : Z) (s : jsstring) : Z :=
  fold_left (fun h c => (31 * h + c)%Z) s h.

End Texts.

Module Clock.
Import Background.

(** [Date.now()] reads the clock of the world.  Within one run it
    stands for the time of that run; between two runs the host moves
    it on, to the time the later run reads. *)
Definition at_time (now : Z) (w : world) : world :=
  {| storage := storage w; sessionRules := sessionRules w;
     enabledRulesets := enabledRulesets w; clock := now;
     on_duplicate := on_duplicate w; faults := faults w;
     trace := trace w |}.

End Clock.

Module TwoDomains.
Import Background Scheduler.



(** The two pairs of ids have no id in common. *)
Definition ids_apart (domain1 domain2 : jsstring) : bool :=
  let h1 := hashCode domain1 in
  let h2 := hashCode domain2 in
  negb ((h1 =? h2) || (h1 =? h2 + 1) || (h1 + 1 =? h2))%Z.

End TwoDomains.

Module Fingerprint.

(** What the worker reads of the object [new URL(url)] builds. *)
Record Location := {
  hostname : jsstring;
  pathname : jsstring
}.

(** The constructor [URL] of the browser, taken as it is: [None] when
    it throws, as it does on a string that is no url. *)
Definition URLConstructor : Type := jsstring -> option Location.

(** Lines 541-547: [extractDomain]. *)
Definition extractDomain (URL : URLConstructor) (url : jsstring) : jsstring :=
  match URL url with
  | Some location => hostname location
  | None => []
  end.

(** Lines 549-555: [extractPath]. *)
Definition extractPath (URL : URLConstructor) (url : jsstring) : jsstring :=
  match URL url with
  | Some location => pathname location
  | None => []
  end.

(** [s.split(sep)] for a one-character separator: the pieces between
    the separators, one more than there are separators. *)
Fixpoint split (sep : jschar) (s : jsstring) : list jsstring :=
  match s with
  | [] => [[]]
  | c :: r =>
      if (c =? sep)%Z then [] :: split sep r
      else
        match split sep r with
        | l :: ls => (c :: l) :: ls
        | [] => [[c]]
        end
  end.

(** [parts.join(sep)] *)
Fixpoint join (sep : jschar) (parts : list jsstring) : jsstring :=
  match parts with
  | [] => []
  | [p] => p
  | p :: rest => p ++ sep :: join sep rest
  end.

(** The callback of lines 344-347 along the labels: the last label is
    kept, a label before it is cut to three characters and a star when
    it has more than three. *)
Fixpoint anonymize (parts : list jsstring) : list jsstring :=
  match parts with
  | [] => []
  | [tld] => [tld]
  | part :: rest =>
      (if 3 <? length part then JS.substring part 0 3 ++ lit "*"%string
       else part)
      :: anonymize rest
  end.

(** Lines 341-347: what [getDomainPattern] makes of the host name. *)
Definition domainPattern (domain : jsstring) : jsstring :=
  let parts := split 46%Z domain in
  join 46%Z (anonymize parts).

(** Lines 339-348: [getDomainPattern]. *)
Definition getDomainPattern (URL : URLConstructor) (url : jsstring)
  : jsstring :=
  let domain := extractDomain URL url in
  domainPattern domain.

(** [/^\d+$/.test(segment)] *)
Definition all_digits (segment : jsstring) : bool :=
  negb (length segment =? 0)
  && forallb (fun c => (48 <=? c)%Z && (c <=? 57)%Z) segment.

(** The callback of lines 356-361. *)
Definition pathSegment (segment : jsstring) : jsstring :=
  if length segment =? 0 then segment
  else if all_digits segment then lit "[NUMBER]"%string
  else if 10 <? length segment then lit "[LONG]"%string
  else segment.

(** Lines 353-362: what [getPathPattern] makes of the path. *)
Definition pathPattern (path : jsstring) : jsstring :=
  let segments := split 47%Z path in
  join 47%Z (map pathSegment segments).

(** Lines 351-363: [getPathPattern]. *)
Definition getPathPattern (URL : URLConstructor) (url : jsstring)
  : jsstring :=
  let path := extractPath URL url in
  pathPattern path.

End Fingerprint.

Module Popup.
Import Background.

(** A tab as [chrome.tabs.query] reports it; [hostname] is what
    [new URL(tab.url).hostname] gives, or the message of the error
    the constructor throws. *)
Record Tab := {
  tab_id : Z;
  tab_url : jsstring;
  hostname : string + jsstring
}.

Inductive tabAnswer :=
| tab_error (error : string)
| tab_info (tabId : Z) (domain : jsstring) (url : jsstring)
           (isEnabledForDomain : bool).

(** Lines 772-797: [handleGetCurrentTab]; [tabs] is what the awaited
    [chrome.tabs.query] settled to, a list of tabs or the message of
    a rejection. *)
Definition handleGetCurrentTab (tabs : string + list Tab) : proc tabAnswer :=
  match tabs with
  | inl error => Ret (tab_error error)
  | inr [] => Ret (tab_error "Kein aktiver Tab gefunden"%string)
  | inr (tab :: _) =>
      match hostname tab with
      | inl error => Ret (tab_error error)
      | inr domain =>
          try_catch
            (result <- await storage_local_get ;;
             let deaktivierteDomains :=
               or_empty (disabledDomains (items_of result)) in
             let istAktiviertFuerDomain :=
               negb (includes deaktivierteDomains domain) in
             Ret (tab_info (tab_id tab) domain (tab_url tab)
                           istAktiviertFuerDomain))
            (fun error => Ret (tab_error error))
      end
  end.

(** The cached statistics and the time they were cached at. *)
Record Stats := {
  rulesCount : Z;
  stats_lastUpdate : Z;
  stats_isEnabled : bool
}.

Record cache := {
  statsCache : option Stats;
  cacheTime : Z
}.

Inductive statsAnswer :=
| stats_error (error : string)
| stats_of (s : Stats).

Definition STATS_CACHE_DURATION : Z := 1000.

(** [result.lastUpdate || Date.now()], with [now] for this second
    reading of the clock. *)
Definition lastUpdate_or (l : option Z) (now : Z) : Z :=
  match l with
  | Some 0%Z => now
  | Some t => t
  | None => now
  end.

(** Lines 748-767: the two awaited host calls and the new cache
    entry; [items] and [enabledRulesets] are what the calls settle to,
    a value or the message of a rejection, the second call being made
    only when the first resolved; [now'] is the clock of line 761, read
    after the calls. *)
Definition fetchStats (now now' : Z) (c : cache) (items : string + Storage)
           (enabledRulesets : string + list string) : statsAnswer * cache :=
  match items with
  | inl error => (stats_error error, c)
  | inr result =>
      match enabledRulesets with
      | inl error => (stats_error error, c)
      | inr rulesets =>
          let aktuelleRegelanzahl :=
            if string_mem ruleset_1 rulesets then 91%Z else 0%Z in
          let fresh :=
            {| rulesCount := aktuelleRegelanzahl;
               stats_lastUpdate := lastUpdate_or (lastUpdate result) now';
               stats_isEnabled := match isEnabled result with
                                  | Some false => false
                                  | _ => true
                                  end |} in
          (stats_of fresh, {| statsCache := Some fresh; cacheTime := now |})
      end
  end.

(** Lines 740-769: [handleGetStats] at the time [now]. *)
Definition handleGetStats (now now' : Z) (c : cache)
           (items : string + Storage)
           (enabledRulesets : string + list string) : statsAnswer * cache :=
  match statsCache c with
  | Some cached =>
      if (now - cacheTime c <? STATS_CACHE_DURATION)%Z
      then (stats_of cached, c)
      else fetchStats now now' c items enabledRulesets
  | None => fetchStats now now' c items enabledRulesets
  end.

(** Lines 712-737 together with the cache of the statistics:
    [statsCache = null] of line 732 is reached on the path that
    answers success, and on no other; [cacheTime] is left alone. *)
Definition handleToggleBlocking_statsCache (request : request) (c : cache)
  : proc (response * cache) :=
  match req_isEnabled request with
  | None => Ret (response_error "Ungültige Anfrage"%string, c)
  | Some enabled =>
      try_catch
        (_ <- (if truthy_string (req_domain request) then
                 _ <- toggleRulesetFuerDomain (or_empty_string (req_domain request)) enabled ;;
                 if truthy_number (req_tabId request) then
                   _ <- await (tabs_reload (or_zero (req_tabId request))) ;;
                   Ret tt
                 else Ret tt
               else toggleRuleset enabled) ;;
         let c := {| statsCache := None; cacheTime := cacheTime c |} in
         Ret (response_success enabled, c))
        (fun error => Ret (response_error error, c))
  end.

End Popup.

(** * Properties of the precompiler *)

Module PrecompilerFacts.
Import Precompiler LineSpec.

Lemma jsstring_eqb_eq (a b : jsstring) : jsstring_eqb a b = true <-> a = b.
Proof.
  revert b; induction a as [|x a IH]; intros [|y b]; simpl;
    try (split; (discriminate || reflexivity)).
  rewrite andb_true_iff, Z.eqb_eq, IH.
  split; [intros [-> ->]; reflexivity | intros H; inversion H; auto].
Qed.

Lemma jsstring_eqb_refl (a : jsstring) : jsstring_eqb a a = true.
Proof. apply jsstring_eqb_eq; reflexivity. Qed.

Lemma skipn_cons_inv (A : Type) (l : list A) n c r :
  skipn n l = c :: r ->
  nth_error l n = Some c /\ skipn (S n) l = r /\ n < length l.
Proof.
  revert l; induction n as [|n IH]; intros [|x l] H; simpl in *;
    try discriminate.
  - inversion H; subst; repeat split; lia.
  - destruct (IH _ H) as (H1 & H2 & H3); repeat split; auto; lia.
Qed.

Lemma skipn_nil_inv (A : Type) (l : list A) n :
  skipn n l = [] -> length l <= n.
Proof.
  intros H. pose proof (length_skipn n l) as E. rewrite H in E.
  simpl in E. lia.
Qed.

Lemma firstn_snoc (A : Type) (l : list A) n c :
  nth_error l n = Some c -> firstn (S n) l = firstn n l ++ [c].
Proof.
  revert l; induction n as [|n IH]; intros [|x l] H; simpl in *;
    try discriminate.
  - inversion H; reflexivity.
  - f_equal. apply IH, H.
Qed.

Lemma nth_error_skipn_plus (A : Type) (l : list A) a n :
  nth_error (skipn a l) n = nth_error l (a + n).
Proof.
  revert l; induction a as [|a IH]; intros [|x l]; simpl; auto.
  destruct n; reflexivity.
Qed.

Lemma substring_ordered (s : jsstring) a b :
  a <= b -> b <= length s ->
  JS.substring s a b = firstn (b - a) (skipn a s).
Proof.
  intros Hab Hb. unfold JS.substring.
  rewrite (Nat.min_l a) by lia. rewrite (Nat.min_l b) by lia.
  rewrite (Nat.min_l a b) by lia. rewrite (Nat.max_r a b) by lia.
  reflexivity.
Qed.

(** The first trimming loop stops at the first character that is
    not trimmed. *)
Lemma trim_start_loop (line : jsstring) fuel start :
  length (skipn start line) < fuel ->
  start <= length line ->
  exists start',
    JS.while fuel
      (fun start => (start <? length line) && trim_char_at line start)
      (fun start => Some (S start)) start = Some start'
    /\ start' <= length line
    /\ skipn start' line = drop_front (skipn start line).
Proof.
  revert start; induction fuel as [|fuel IH]; intros start Hf Hs; [lia|].
  simpl. destruct (skipn start line) as [|c r] eqn:E.
  - apply skipn_nil_inv in E.
    replace (start <? length line) with false
      by (symmetry; apply Nat.ltb_ge; lia).
    simpl. exists start. rewrite skipn_all2 by lia. auto.
  - destruct (skipn_cons_inv _ _ E) as (Hc & Hr & Hlt).
    replace (start <? length line) with true
      by (symmetry; apply Nat.ltb_lt; lia).
    unfold trim_char_at, JS.charAt. rewrite Hc. simpl.
    destruct (is_trim_char c) eqn:Ec.
    + destruct (IH (S start)) as (s' & H1 & H2 & H3).
      * rewrite Hr. simpl in Hf. lia.
      * lia.
      * exists s'. rewrite Hr in H3. auto.
    + exists start. rewrite E. repeat split; auto.
Qed.

(** The second trimming loop stops behind the last character that is
    not trimmed, or at [start]. *)
Lemma trim_end_loop (line : jsstring) start fuel end_ :
  end_ - start < fuel ->
  start <= end_ -> end_ <= length line ->
  exists end',
    JS.while fuel
      (fun end_ => (start <? end_) && trim_char_at line (end_ - 1))
      (fun end_ => Some (end_ - 1)) end_ = Some end'
    /\ start <= end' /\ end' <= end_
    /\ firstn (end' - start) (skipn start line)
       = rev (drop_front (rev (firstn (end_ - start) (skipn start line)))).
Proof.
  revert end_; induction fuel as [|fuel IH]; intros end_ Hf Hs He; [lia|].
  simpl. destruct (Nat.eq_dec start end_) as [->|Hne].
  - rewrite Nat.ltb_irrefl. simpl. exists end_.
    rewrite Nat.sub_diag. simpl. auto.
  - replace (start <? end_) with true by (symmetry; apply Nat.ltb_lt; lia).
    simpl.
    destruct (nth_error line (end_ - 1)) as [c|] eqn:Hc.
    2:{ apply nth_error_None in Hc. lia. }
    assert (Hseg : firstn (end_ - start) (skipn start line)
                   = firstn (end_ - 1 - start) (skipn start line) ++ [c]).
    { replace (end_ - start) with (S (end_ - 1 - start)) by lia.
      apply firstn_snoc. rewrite nth_error_skipn_plus.
      replace (start + (end_ - 1 - start)) with (end_ - 1) by lia.
      exact Hc. }
    unfold trim_char_at at 1, JS.charAt. rewrite Hc.
    rewrite Hseg, rev_app_distr. simpl.
    destruct (is_trim_char c) eqn:Ec.
    + destruct (IH (end_ - 1)) as (e' & H1 & H2 & H3 & H4); try lia.
      exists e'. repeat split; auto; lia.
    + exists end_. simpl. rewrite rev_involutive, <- Hseg.
      repeat split; auto.
Qed.

(** The trimming of lines 82-98 always ends and drops exactly the
    characters space, tab and carriage return at both ends. *)
Lemma trim_trimmed (line : jsstring) : trim line = Some (trimmed line).
Proof.
  unfold trim.
  destruct (trim_start_loop line (fuel := S (length line)) (start := 0))
    as (s' & H1 & H2 & H3); [simpl; lia | lia |].
  rewrite H1. simpl in H3.
  destruct (trim_end_loop line (start := s') (fuel := S (length line))
              (end_ := length line)) as (e' & E1 & E2 & E3 & E4); try lia.
  rewrite E1. f_equal.
  assert (Hall : firstn (length line - s') (skipn s' line) = skipn s' line).
  { apply firstn_all2. rewrite length_skipn. lia. }
  assert (E5 : firstn (e' - s') (skipn s' line) = trimmed line).
  { rewrite E4, Hall, H3. reflexivity. }
  destruct ((0 <? s') || (e' <? length line)) eqn:C.
  - rewrite substring_ordered by lia. exact E5.
  - apply orb_false_iff in C. destruct C as [C1 C2].
    apply Nat.ltb_ge in C1, C2.
    assert (s' = 0) by lia. assert (e' = length line) by lia. subst.
    rewrite <- E5. simpl. rewrite Nat.sub_0_r. symmetry. apply firstn_all.
Qed.

(** The tests of lines 101 and 103 against the validator. *)
Lemma test_ignorable (t : jsstring) :
  (length t =? 0) || first_is t 35%Z || first_is t 33%Z || first_is t 91%Z
  = ignorable t.
Proof. destruct t; reflexivity. Qed.

Lemma endsWith_last (t : jsstring) (z : jschar) :
  JS.endsWith t [z]
  = match rev t with x :: _ => (x =? z)%Z | [] => false end.
Proof.
  destruct t as [|x t _] using rev_ind; [reflexivity|].
  rewrite rev_app_distr. simpl. unfold JS.endsWith.
  rewrite length_app. simpl.
  replace (length t + 1 - 1) with (length t + 0) by lia.
  rewrite skipn_app, skipn_all2 by lia.
  replace (length t + 0 - length t) with 0 by lia. simpl.
  rewrite andb_true_r.
  replace (length t + 1) with (S (length t)) by lia. reflexivity.
Qed.

Lemma test_anchored (t : jsstring) :
  (4 <? length t) && JS.startsWith t (lit "||"%string)
  && JS.endsWith t (lit "^"%string)
  = anchored t.
Proof.
  unfold anchored. change (lit "^"%string) with [94%Z].
  rewrite endsWith_last. f_equal. f_equal.
  change (lit "||"%string) with [124%Z; 124%Z]. unfold JS.startsWith.
  destruct t as [|a [|b r]]; simpl; try reflexivity.
  - rewrite andb_false_r. reflexivity.
  - rewrite andb_true_r. reflexivity.
Qed.

Lemma anchored_length (t : jsstring) : anchored t = true -> 4 < length t.
Proof.
  unfold anchored. intros H.
  apply andb_true_iff in H. destruct H as [H _].
  apply andb_true_iff in H. destruct H as [H _].
  apply Nat.ltb_lt, H.
Qed.

Lemma domainBody_length (t : jsstring) :
  length (domainBody t) = length t - 3.
Proof.
  unfold domainBody. rewrite removelast_firstn_len, length_firstn, length_skipn.
  lia.
Qed.

Lemma domain_domainBody (t : jsstring) :
  4 < length t -> JS.substring t 2 (length t - 1) = domainBody t.
Proof.
  intros H. rewrite substring_ordered by lia.
  unfold domainBody. rewrite removelast_firstn_len, length_skipn.
  f_equal. lia.
Qed.

Lemma isValid_allowed (domain : jsstring) :
  isValid domain = forallb allowed_char domain.
Proof.
  induction domain as [|c r IH]; simpl; [reflexivity|].
  unfold allowed_char at 1.
  destruct ((c =? 42) || (c =? 47) || (c =? 0))%Z; simpl; auto.
Qed.

(** Lines 100-147 against the validator: the class decides what
    happens to the locals, and exactly the overlong lines leave the
    iteration through [continue]. *)
Lemma classify_classOf (p : Z) (t : jsstring) (v : vars) :
  classify p t v
  = (if overlong CONFIG.MAX_FILTER_LENGTH t then Continue else FallThrough,
     match classOf CONFIG.MAX_FILTER_LENGTH t with
     | WellFormed => emit p t v
     | _ => skip v
     end).
Proof.
  unfold classify, classOf, overlong, wellFormed.
  rewrite test_ignorable, test_anchored.
  destruct (ignorable t); simpl; [reflexivity|].
  destruct (anchored t) eqn:A; simpl; [|reflexivity].
  pose proof (anchored_length _ A) as L.
  rewrite domain_domainBody by exact L.
  pose proof (domainBody_length t) as B.
  replace (length (domainBody t) =? 0) with false
    by (symmetry; apply Nat.eqb_neq; lia).
  simpl.
  destruct (CONFIG.MAX_FILTER_LENGTH <? length (domainBody t)) eqn:M.
  - apply Nat.ltb_lt in M.
    replace (length (domainBody t) <=? CONFIG.MAX_FILTER_LENGTH) with false
      by (symmetry; apply Nat.leb_gt; exact M).
    reflexivity.
  - apply Nat.ltb_ge in M.
    replace (length (domainBody t) <=? CONFIG.MAX_FILTER_LENGTH) with true
      by (symmetry; apply Nat.leb_le; exact M).
    rewrite isValid_allowed. simpl.
    destruct (forallb allowed_char (domainBody t)); reflexivity.
Qed.

Lemma wellFormed_not_ignorable (n : nat) (t : jsstring) :
  wellFormed n t = true -> ignorable t = false.
Proof.
  unfold wellFormed. intros H.
  do 3 (apply andb_true_iff in H; destruct H as [H _]).
  unfold anchored in H.
  apply andb_true_iff in H. destruct H as [H _].
  apply andb_true_iff in H. destruct H as [_ H].
  destruct t as [|a [|b r]]; try discriminate.
  apply andb_true_iff in H. destruct H as [H _].
  apply Z.eqb_eq in H. subst a. reflexivity.
Qed.

(** Lines 78-79 take one trailing carriage return away. *)
Lemma strip_without_cr (line : jsstring) :
  (if JS.endsWith line [13%Z] then JS.slice_0_m1 line else line)
  = without_cr line.
Proof.
  rewrite endsWith_last. unfold without_cr, JS.slice_0_m1.
  destruct line as [|x t _] using rev_ind; [reflexivity|].
  rewrite rev_app_distr. simpl.
  destruct (x =? 13)%Z; [|reflexivity].
  rewrite rev_involutive, length_app. simpl.
  replace (length t + 1 - 1) with (length t + 0) by lia.
  rewrite firstn_app_2. simpl. apply app_nil_r.
Qed.

(** Where the next line feed is, and what the first line is. *)
Lemma cut_lines_find (s : jsstring) :
  s <> [] ->
  match JS.find_index 10%Z s with
  | None => cut_lines s = [s]
  | Some k => k < length s
              /\ cut_lines s = firstn k s :: cut_lines (skipn (S k) s)
  end.
Proof.
  induction s as [|c r IH]; intros Hne; [congruence|].
  simpl. destruct (c =? 10)%Z eqn:Ec.
  - split; [lia | reflexivity].
  - destruct r as [|c' r'].
    + reflexivity.
    + assert (Hr : c' :: r' <> []) by discriminate.
      specialize (IH Hr).
      destruct (JS.find_index 10%Z (c' :: r')) as [k|].
      * destruct IH as [Hk IH]. simpl option_map. cbv iota.
        split; [simpl in *; lia|].
        rewrite IH. reflexivity.
      * rewrite IH. reflexivity.
Qed.

(** One iteration of the main loop on the line that starts at
    [lineStart]. *)
Lemma loopBody_line (text : jsstring) (p : Z) lineStart v c r :
  skipn lineStart text = c :: r ->
  let '(line, next) :=
    match JS.find_index 10%Z (c :: r) with
    | Some k => (firstn k (c :: r), lineStart + k + 1)
    | None => (c :: r, length text + 1)
    end in
  loopBody text p (lineStart, v)
  = Some (if overlong CONFIG.MAX_FILTER_LENGTH (trimmed (without_cr line))
          then lineStart else next,
          lineEffect p v (without_cr line)).
Proof.
  intros E.
  destruct (skipn_cons_inv _ _ E) as (_ & _ & Hlt).
  assert (Hlen : length (c :: r) = length text - lineStart)
    by (rewrite <- E; apply length_skipn).
  assert (Hne : c :: r <> []) by discriminate.
  pose proof (cut_lines_find Hne) as Hcut.
  unfold loopBody, JS.indexOf. rewrite E.
  destruct (JS.find_index 10%Z (c :: r)) as [k|]; simpl option_map; cbv iota.
  - destruct Hcut as [Hk _].
    unfold extract. rewrite substring_ordered by lia.
    replace (lineStart + k - lineStart) with k by lia.
    rewrite E, strip_without_cr, trim_trimmed, classify_classOf.
    unfold lineEffect.
    destruct (overlong _ _); reflexivity.
  - unfold extract. rewrite substring_ordered by lia.
    rewrite E, firstn_all2 by lia.
    rewrite strip_without_cr, trim_trimmed, classify_classOf.
    unfold lineEffect.
    destruct (overlong _ _); reflexivity.
Qed.

Lemma while_S (S : Type) fuel (cond : S -> bool) body (s : S) :
  JS.while (Datatypes.S fuel) cond body s
  = if cond s then
      match body s with
      | Some s' => JS.while fuel cond body s'
      | None => None
      end
    else Some s.
Proof. reflexivity. Qed.

(** The main loop goes through the logical lines in order, once
    each, as long as none of them is overlong. *)
Lemma main_loop (text : jsstring) (p : Z) (fuel : nat) :
  forall lineStart v,
    no_overlong (skipn lineStart text) = true ->
    length (skipn lineStart text) < fuel ->
    exists n,
      JS.while fuel (fun s => fst s <? length text) (loopBody text p)
               (lineStart, v)
      = Some (n, fold_left (lineEffect p)
                           (logicalLines (skipn lineStart text)) v).
Proof.
  induction fuel as [|fuel IH]; intros lineStart v Hno Hf; [lia|].
  rewrite while_S. cbn [fst].
  destruct (skipn lineStart text) as [|c r] eqn:E.
  - apply skipn_nil_inv in E.
    replace (lineStart <? length text) with false
      by (symmetry; apply Nat.ltb_ge; lia).
    exists lineStart. reflexivity.
  - destruct (skipn_cons_inv _ _ E) as (_ & _ & Hlt).
    replace (lineStart <? length text) with true
      by (symmetry; apply Nat.ltb_lt; lia).
    assert (Hne : c :: r <> []) by discriminate.
    pose proof (cut_lines_find Hne) as Hcut.
    pose proof (loopBody_line text p lineStart v E) as Hbody.
    unfold no_overlong, logicalLines in Hno |- *.
    destruct (JS.find_index 10%Z (c :: r)) as [k|].
    + destruct Hcut as [Hk Hcut]. rewrite Hcut in Hno |- *.
      simpl map in Hno |- *. simpl forallb in Hno.
      apply andb_true_iff in Hno. destruct Hno as [Hhd Htl].
      apply negb_true_iff in Hhd.
      rewrite Hbody, Hhd.
      assert (Hskip : skipn (lineStart + k + 1) text = skipn (S k) (c :: r)).
      { rewrite <- E, skipn_skipn. f_equal. lia. }
      destruct (IH (lineStart + k + 1)
                   (lineEffect p v (without_cr (firstn k (c :: r)))))
        as [n Hn].
      * unfold no_overlong, logicalLines. rewrite Hskip. exact Htl.
      * rewrite Hskip, length_skipn. simpl in Hf |- *. lia.
      * exists n. rewrite Hn.
        unfold logicalLines. rewrite Hskip. reflexivity.
    + rewrite Hcut in Hno |- *. simpl map in Hno |- *. simpl forallb in Hno.
      apply andb_true_iff in Hno. destruct Hno as [Hhd _].
      apply negb_true_iff in Hhd.
      rewrite Hbody, Hhd.
      assert (Hskip : skipn (length text + 1) text = []).
      { apply skipn_all2. lia. }
      destruct (IH (length text + 1) (lineEffect p v (without_cr (c :: r))))
        as [n Hn].
      * rewrite Hskip. reflexivity.
      * rewrite Hskip. simpl in Hf |- *. lia.
      * exists n. rewrite Hn, Hskip. reflexivity.
Qed.

Lemma classOf_wellFormed (n : nat) (t : jsstring) :
  classOf n t = WellFormed <-> wellFormed n t = true.
Proof.
  unfold classOf. split.
  - destruct (ignorable t); [discriminate|].
    destruct (wellFormed n t); [reflexivity | discriminate].
  - intros H. rewrite (wellFormed_not_ignorable _ _ H), H. reflexivity.
Qed.

Lemma lineEffect_cases (p : Z) (v : vars) (line : jsstring) :
  lineEffect p v line
  = if wellFormed CONFIG.MAX_FILTER_LENGTH (trimmed line)
    then emit p (trimmed line) v else skip v.
Proof.
  unfold lineEffect.
  destruct (wellFormed CONFIG.MAX_FILTER_LENGTH (trimmed line)) eqn:W.
  - apply classOf_wellFormed in W. rewrite W. reflexivity.
  - destruct (classOf CONFIG.MAX_FILTER_LENGTH (trimmed line)) eqn:C;
      try reflexivity.
    apply classOf_wellFormed in C. congruence.
Qed.

(** The locals after a run of lines. *)
Lemma lineEffect_fold (p : Z) (ls : list jsstring) :
  forall v,
    let ts := filter (wellFormed CONFIG.MAX_FILTER_LENGTH) (map trimmed ls) in
    fold_left (lineEffect p) ls v
    = {| v_rules := v_rules v ++ numbered (v_ruleId v) p ts;
         v_ruleId := v_ruleId v + Z.of_nat (length ts);
         v_processedRules := v_processedRules v + Z.of_nat (length ts);
         v_skippedLines :=
           v_skippedLines v + Z.of_nat (length ls) - Z.of_nat (length ts);
         v_errors := v_errors v |}%Z.
Proof.
  induction ls as [|l ls IH]; intros v; simpl.
  - destruct v; simpl. rewrite app_nil_r. f_equal; lia.
  - rewrite IH, lineEffect_cases.
    destruct (wellFormed CONFIG.MAX_FILTER_LENGTH (trimmed l)); simpl.
    + rewrite <- app_assoc. simpl. f_equal; lia.
    + f_equal; lia.
Qed.

Lemma nth_error_numbered (ts : list jsstring) :
  forall start p k,
    nth_error (numbered start p ts) k
    = option_map (mkRule (start + Z.of_nat k) p) (nth_error ts k).
Proof.
  induction ts as [|t ts IH]; intros start p [|k]; simpl; try reflexivity.
  - rewrite Z.add_0_r. reflexivity.
  - rewrite IH. do 2 f_equal. lia.
Qed.

Lemma length_numbered (ts : list jsstring) :
  forall start p, length (numbered start p ts) = length ts.
Proof. induction ts; intros; simpl; auto. Qed.

(** On a text without overlong lines the compiler returns, with one
    rule per well-formed line and every other line skipped. *)
Lemma precompile_returns (text : jsstring) (options : Options) (fuel : nat) :
  no_overlong text = true ->
  length text < fuel ->
  precompileFilterList fuel (JSString text) options
  = Returned
      {| rules := numbered (JS.or_default (startId options) 1)
                           (JS.or_default (opt_priority options) 1)
                           (patterns text);
         stats :=
           {| totalLines := Z.of_nat (length (logicalLines text));
              processedRules := Z.of_nat (length (patterns text));
              skippedLines := Z.of_nat (length (logicalLines text))
                              - Z.of_nat (length (patterns text));
              errors := 0 |} |}%Z.
Proof.
  intros Hno Hf. unfold precompileFilterList.
  destruct (length text =? 0) eqn:E0.
  - apply Nat.eqb_eq in E0. apply length_zero_iff_nil in E0. subst text.
    reflexivity.
  - destruct (main_loop text (JS.or_default (opt_priority options) 1)
                (fuel := fuel) 0 (init options)) as [n Hn]; auto.
    simpl skipn in Hn. rewrite Hn, lineEffect_fold.
    unfold finish, patterns, init. cbn [v_rules v_ruleId v_processedRules
      v_skippedLines v_errors app].
    f_equal. f_equal. f_equal; lia.
Qed.

(** Once the loop stands on the overlong line of the sample it
    stays there: [continue] skips the update of [lineStart]. *)
Lemma loop_stuck (p : Z) (fuel : nat) :
  forall v,
    JS.while fuel (fun s => fst s <? length Samples.list_with_overlong_line)
             (loopBody Samples.list_with_overlong_line p) (19, v)
    = None.
Proof.
  induction fuel as [|fuel IH]; intros v; [reflexivity|].
  rewrite while_S.
  replace (fst (19, v) <? length Samples.list_with_overlong_line) with true
    by (vm_compute; reflexivity).
  replace (loopBody Samples.list_with_overlong_line p (19, v))
    with (Some (19, skip v)) by (vm_compute; reflexivity).
  apply IH.
Qed.

(** C1, at the input that shows the defect: on a list whose second
    line is a pattern with a domain body of 1001 characters the
    compiler never returns, whatever the fuel; the overlong line is
    not rejected once and left behind, and the well-formed first line
    yields no rule in any result. *)
Theorem C1_overlong_line_never_left (fuel : nat) (options : Options) :
  precompileFilterList fuel (JSString Samples.list_with_overlong_line) options
  = OutOfFuel.
Proof.
  unfold precompileFilterList.
  replace (length Samples.list_with_overlong_line =? 0) with false
    by (vm_compute; reflexivity).
  destruct fuel as [|fuel]; [reflexivity|].
  rewrite while_S.
  replace (fst (0, init options) <? length Samples.list_with_overlong_line)
    with true by (vm_compute; reflexivity).
  replace (loopBody Samples.list_with_overlong_line
             (JS.or_default (opt_priority options) 1) (0, init options))
    with (Some (19, emit (JS.or_default (opt_priority options) 1)
                         (lit "||ads.example.com^"%string) (init options)))
    by (vm_compute; reflexivity).
  rewrite loop_stuck. reflexivity.
Qed.

(** C8, as amended: on a text without overlong lines the compiler
    returns; its rules are the well-formed trimmed lines in input
    order, the rule at position k (counted from 0) has id s + k where
    s is options.startId, or 1 when that is missing or 0, priority
    options.priority, or 1 when that is missing or 0, action block,
    and as urlFilter the trimmed line itself; processedRules is the
    number of rules. *)
Theorem C8_rule_construction (text : jsstring) (options : Options)
        (fuel : nat) :
  no_overlong text = true ->
  length text < fuel ->
  exists r,
    precompileFilterList fuel (JSString text) options = Returned r
    /\ processedRules (stats r) = Z.of_nat (length (rules r))
    /\ length (rules r) = length (patterns text)
    /\ forall k rule,
         nth_error (rules r) k = Some rule ->
         id rule = (JS.or_default (startId options) 1 + Z.of_nat k)%Z
         /\ priority rule = JS.or_default (opt_priority options) 1
         /\ action rule = block
         /\ nth_error (patterns text) k = Some (urlFilter (condition rule))
         /\ resourceTypes (condition rule) = the_resourceTypes.
Proof.
  intros Hno Hf. eexists. split; [apply precompile_returns; assumption|].
  cbn [rules stats processedRules]. rewrite length_numbered.
  repeat split; auto.
  all: rewrite nth_error_numbered in H;
    destruct (nth_error (patterns text) k) as [t|]; simpl in H;
    [inversion H; subst; reflexivity | discriminate].
Qed.

Lemma C8_rule_construction_witness :
  no_overlong Samples.small_list = true
  /\ length Samples.small_list < 100
  /\ exists r,
    precompileFilterList 100 (JSString Samples.small_list)
      {| startId := Some 7%Z; opt_priority := Some 2%Z |} = Returned r
    /\ processedRules (stats r) = Z.of_nat (length (rules r))
    /\ length (rules r) = length (patterns Samples.small_list)
    /\ forall k rule,
         nth_error (rules r) k = Some rule ->
         id rule = (7 + Z.of_nat k)%Z
         /\ priority rule = 2%Z
         /\ action rule = block
         /\ nth_error (patterns Samples.small_list) k
            = Some (urlFilter (condition rule))
         /\ resourceTypes (condition rule) = the_resourceTypes.
Proof.
  assert (H1 : no_overlong Samples.small_list = true) by (vm_compute; reflexivity).
  assert (H2 : length Samples.small_list < 100)
    by (apply Nat.ltb_lt; vm_compute; reflexivity).
  split; [exact H1|]. split; [exact H2|].
  exact (C8_rule_construction Samples.small_list
           {| startId := Some 7%Z; opt_priority := Some 2%Z |} H1 H2).
Defined.

(** C8, as stated, fails: with startId 0 and priority 0 the first
    rule gets id 1 and priority 1. *)
Lemma C8_counterexample :
  exists r rule,
    precompileFilterList 100 (JSString (lit "||ads.example.com^"%string))
      {| startId := Some 0%Z; opt_priority := Some 0%Z |} = Returned r
    /\ nth_error (rules r) 0 = Some rule
    /\ id rule <> (0 + 1 - 1)%Z
    /\ priority rule <> 0%Z.
Proof.
  eexists. eexists. split; [vm_compute; reflexivity|].
  split; [reflexivity|]. split; discriminate.
Qed.

(** C9: an argument that is not a string makes the compiler throw
    at once, with any fuel, so no line is scanned and there are
    neither rules nor statistics; the empty string is no error and
    gives no rules and statistics that are all zero. *)
Theorem C9_fail_fast (fuel : nat) (filterText : jsvalue) (options : Options) :
  typeof_string filterText = false ->
  precompileFilterList fuel filterText options
  = Threw "Filter text must be a string"%string
  /\ precompileFilterList fuel (JSString []) options
     = Returned {| rules := [];
                   stats := {| totalLines := 0; processedRules := 0;
                               skippedLines := 0; errors := 0 |} |}.
Proof.
  intros H. split; [|reflexivity].
  destruct filterText; try reflexivity. discriminate.
Qed.

Lemma C9_fail_fast_witness :
  typeof_string JSNull = false
  /\ precompileFilterList 0 JSNull {| startId := None; opt_priority := None |}
     = Threw "Filter text must be a string"%string
  /\ precompileFilterList 0 (JSString [])
       {| startId := None; opt_priority := None |}
     = Returned {| rules := [];
                   stats := {| totalLines := 0; processedRules := 0;
                               skippedLines := 0; errors := 0 |} |}.
Proof.
  split; [reflexivity|].
  exact (@C9_fail_fast 0 JSNull {| startId := None; opt_priority := None |}
           eq_refl).
Defined.

End PrecompilerFacts.

(** * Properties of the override engine *)

Module OverrideFacts.
Import Background.
Import PrecompilerFacts.

(** ** Running async functions *)

Lemma run_bind (A B : Type) (p : proc A) (f : A -> proc B) :
  forall w,
    run (bind p f) w
    = match run p w with
      | (inl a, w') => run (f a) w'
      | (inr e, w') => (inr e, w')
      end.
Proof.
  induction p as [a|e|c k IH]; intros w; simpl; try reflexivity.
  destruct (exec c w) as [r w']. apply IH.
Qed.

Lemma run_try_catch (A : Type) (p : proc A) (h : string -> proc A) :
  forall w,
    run (try_catch p h) w
    = match run p w with
      | (inl a, w') => (inl a, w')
      | (inr e, w') => run (h e) w'
      end.
Proof.
  induction p as [a|e|c k IH]; intros w; simpl; try reflexivity.
  destruct (exec c w) as [r w']. apply IH.
Qed.

Lemma run_await (c : call) (w : world) :
  run (await c) w
  = match exec c w with
    | (Rejected e, w') => (inr e, w')
    | (r, w') => (inl r, w')
    end.
Proof.
  unfold await. simpl. destruct (exec c w) as [[e| |st] w']; reflexivity.
Qed.

(** A host call in a world where the host fails nothing of its own. *)
Lemma exec_no_faults (c : call) (w : world) :
  faults w = [] ->
  exec c w
  = (fst (perform c w),
     log_call c (negb (is_rejected (fst (perform c w)))) []
              (snd (perform c w))).
Proof.
  intros H. unfold exec, next_fault. rewrite H.
  destruct (perform c w); reflexivity.
Qed.

(** ** Lists of domains *)

Lemma includes_In (l : list jsstring) (d : jsstring) :
  includes l d = true <-> In d l.
Proof.
  unfold includes. rewrite existsb_exists. split.
  - intros (x & Hx & E). apply jsstring_eqb_eq in E. subst. exact Hx.
  - intros H. exists d. split; [exact H | apply jsstring_eqb_refl].
Qed.

Lemma includes_app (l1 l2 : list jsstring) (d : jsstring) :
  includes (l1 ++ l2) d = includes l1 d || includes l2 d.
Proof. unfold includes. apply existsb_app. Qed.

Lemma includes_self (d : jsstring) : includes [d] d = true.
Proof. unfold includes. simpl. rewrite jsstring_eqb_refl. reflexivity. Qed.

Lemma filter_absent (l : list jsstring) (d : jsstring) :
  includes l d = false ->
  filter (fun x => negb (jsstring_eqb x d)) l = l.
Proof.
  induction l as [|x l IH]; simpl; [reflexivity|].
  intros H. apply orb_false_iff in H. destruct H as [H1 H2].
  rewrite H1. simpl. f_equal. apply IH, H2.
Qed.

Lemma occurrences_absent (l : list jsstring) (d : jsstring) :
  includes l d = false -> occurrences d l = 0.
Proof.
  unfold occurrences.
  induction l as [|x l IH]; simpl; [reflexivity|].
  intros H. apply orb_false_iff in H. destruct H as [H1 H2].
  rewrite H1. apply IH, H2.
Qed.

Lemma mutate_enable_absent (l : list jsstring) (d : jsstring) :
  includes l d = false -> mutate d true l = l.
Proof. apply filter_absent. Qed.

Lemma mutate_disable_absent (l : list jsstring) (d : jsstring) :
  includes l d = false -> mutate d false l = l ++ [d].
Proof. unfold mutate. intros ->. reflexivity. Qed.

Lemma mutate_disable_present (l : list jsstring) (d : jsstring) :
  includes l d = true -> mutate d false l = l.
Proof. unfold mutate. intros ->. reflexivity. Qed.

Lemma mutate_includes (l : list jsstring) (d : jsstring) (en : bool) :
  includes (mutate d en l) d = negb en.
Proof.
  destruct en.
  - unfold mutate. simpl. unfold includes.
    induction l as [|x l IH]; simpl; [reflexivity|].
    destruct (jsstring_eqb x d) eqn:E; simpl; [exact IH|].
    rewrite E. exact IH.
  - destruct (includes l d) eqn:E.
    + rewrite mutate_disable_present by exact E. exact E.
    + rewrite mutate_disable_absent by exact E.
      rewrite includes_app, includes_self. apply orb_true_r.
Qed.

Lemma mutate_other (l : list jsstring) (d x : jsstring) (en : bool) :
  x <> d -> (In x (mutate d en l) <-> In x l).
Proof.
  intros Hx. unfold mutate. destruct en.
  - rewrite filter_In. split; [tauto|]. intros H. split; [exact H|].
    apply negb_true_iff. destruct (jsstring_eqb x d) eqn:E; [|reflexivity].
    apply jsstring_eqb_eq in E. contradiction.
  - destruct (negb (includes l d)); [|tauto].
    rewrite in_app_iff. simpl. split; [|tauto].
    intros [H|[H|[]]]; [exact H | congruence].
Qed.

(** ** The session-rule table *)

Lemma remove_rules_nil (table : list SessionRule) :
  remove_rules [] table = table.
Proof.
  unfold remove_rules. induction table as [|r t IH]; simpl; [reflexivity|].
  f_equal. exact IH.
Qed.

Lemma perform_add (w : world) (rules : list SessionRule) :
  perform (updateSessionRules [] rules) w
  = match add_rules (on_duplicate w) rules (sessionRules w) with
    | Some table =>
        (Resolved, set_state w (storage w) table (enabledRulesets w))
    | None => (Rejected "Rule does not have a unique ID"%string, w)
    end.
Proof. simpl. rewrite remove_rules_nil. reflexivity. Qed.

Ltac run_step :=
  repeat first
    [ rewrite run_try_catch
    | rewrite run_bind
    | rewrite run_await ].

(** [updateSessionRulesForDomain] when the host fails nothing of its
    own: it returns, and leaves the table of [table_after]. *)
Lemma update_run (d : jsstring) (en : bool) (w : world) :
  faults w = [] ->
  exists w',
    run (updateSessionRulesForDomain d en) w = (inl tt, w')
    /\ faults w' = []
    /\ storage w' = storage w
    /\ on_duplicate w' = on_duplicate w
    /\ sessionRules w'
       = table_after (on_duplicate w) d en (sessionRules w).
Proof.
  intros Hf. unfold updateSessionRulesForDomain, table_after.
  destruct en.
  - run_step. rewrite exec_no_faults by exact Hf. simpl.
    eexists. split; [reflexivity|]. simpl. auto.
  - run_step. rewrite exec_no_faults by exact Hf. rewrite perform_add.
    destruct (add_rules (on_duplicate w) [initiatorRule (hashCode d) d]
                        (sessionRules w)) as [t1|] eqn:E1.
    + cbn [fst snd is_rejected negb]. run_step.
      rewrite exec_no_faults by reflexivity. rewrite perform_add.
      cbn [on_duplicate sessionRules log_call set_state].
      destruct (add_rules (on_duplicate w)
                          [requestRule (hashCode d + 1) d] t1)
        as [t2|] eqn:E2.
      * cbn. eexists. split; [reflexivity|]. cbn. auto.
      * cbn. eexists. split; [reflexivity|]. cbn. auto.
    + cbn. eexists. split; [reflexivity|]. cbn. auto.
Qed.

(** [toggleRulesetFuerDomain] when the host fails nothing of its own. *)
Lemma toggle_run (d : jsstring) (en : bool) (w : world) :
  faults w = [] ->
  exists w',
    run (toggleRulesetFuerDomain d en) w = (inl tt, w')
    /\ faults w' = []
    /\ on_duplicate w' = on_duplicate w
    /\ exemptionSet w' = mutate d en (exemptionSet w)
    /\ sessionRules w'
       = table_after (on_duplicate w) d en (sessionRules w).
Proof.
  intros Hf. unfold toggleRulesetFuerDomain.
  run_step. rewrite exec_no_faults by exact Hf.
  cbn [perform fst snd is_rejected negb items_of].
  run_step. rewrite exec_no_faults by reflexivity.
  cbn [perform fst snd is_rejected negb].
  set (w1 := log_call _ true [] (set_state _ _ _ _)).
  destruct (@update_run d en w1 eq_refl) as (w2 & R & F & S & P & T).
  rewrite run_bind, R. cbn. exists w2. split; [reflexivity|].
  split; [exact F|]. split; [rewrite P; reflexivity|].
  split.
  - unfold exemptionSet. rewrite S. reflexivity.
  - rewrite T. reflexivity.
Qed.

Lemma has_id_app (i : Z) (a b : list SessionRule) :
  has_id i (a ++ b) = has_id i a || has_id i b.
Proof. unfold has_id. apply existsb_app. Qed.

Lemma rules_at_app (d : jsstring) (a b : list SessionRule) :
  rules_at d (a ++ b) = rules_at d a ++ rules_at d b.
Proof. unfold rules_at. apply filter_app. Qed.

Lemma rules_at_nil_has_id (d : jsstring) (t : list SessionRule) :
  rules_at d t = [] ->
  has_id (hashCode d) t = false /\ has_id (hashCode d + 1) t = false.
Proof.
  unfold rules_at, has_id.
  induction t as [|r t IH]; simpl; [auto|].
  destruct (id r =? hashCode d)%Z; simpl; [discriminate|].
  destruct (id r =? hashCode d + 1)%Z; simpl; [discriminate|].
  exact IH.
Qed.

Lemma rules_at_pair (d : jsstring) : rules_at d (overridePair d) = overridePair d.
Proof.
  unfold rules_at, overridePair. simpl.
  rewrite !Z.eqb_refl. simpl. rewrite orb_true_r. reflexivity.
Qed.

Lemma next_id_differs (h : Z) : (h =? h + 1)%Z = false.
Proof. apply Z.eqb_neq. lia. Qed.

(** From a table that holds nothing at the two ids of the domain,
    the two add calls install the pair. *)
Lemma table_after_disable_free pol (d : jsstring) (t : list SessionRule) :
  rules_at d t = [] ->
  table_after pol d false t = t ++ overridePair d.
Proof.
  intros H. destruct (rules_at_nil_has_id _ _ H) as [H1 H2].
  unfold table_after, overridePair. simpl.
  rewrite H1. rewrite has_id_app, H2. simpl.
  rewrite next_id_differs. simpl.
  rewrite <- app_assoc. reflexivity.
Qed.

(** Once the pair is in the table, the add calls change nothing,
    whether the host rejects or ignores them. *)
Lemma table_after_disable_again pol (d : jsstring) (t : list SessionRule) :
  table_after pol d false (t ++ overridePair d) = t ++ overridePair d.
Proof.
  unfold table_after, overridePair. simpl.
  assert (H1 : has_id (hashCode d)
                 (t ++ [initiatorRule (hashCode d) d;
                        requestRule (hashCode d + 1) d]) = true).
  { rewrite has_id_app. simpl. rewrite Z.eqb_refl. simpl. apply orb_true_r. }
  assert (H2 : has_id (hashCode d + 1)
                 (t ++ [initiatorRule (hashCode d) d;
                        requestRule (hashCode d + 1) d]) = true).
  { rewrite has_id_app. simpl. rewrite Z.eqb_refl. simpl.
    rewrite !orb_true_r. reflexivity. }
  rewrite H1. destruct pol; [reflexivity|].
  rewrite H2. reflexivity.
Qed.

Lemma remove_free (d : jsstring) (t : list SessionRule) :
  rules_at d t = [] ->
  remove_rules [hashCode d; (hashCode d + 1)%Z] t = t.
Proof.
  unfold rules_at, remove_rules.
  induction t as [|r t IH]; simpl; [reflexivity|].
  rewrite (Z.eqb_sym (hashCode d)), (Z.eqb_sym (hashCode d + 1)).
  destruct (id r =? hashCode d)%Z; simpl; [discriminate|].
  destruct (id r =? hashCode d + 1)%Z; simpl; [discriminate|].
  intros H. f_equal. apply IH, H.
Qed.

Lemma rules_at_removed (d : jsstring) (t : list SessionRule) :
  rules_at d (remove_rules [hashCode d; (hashCode d + 1)%Z] t) = [].
Proof.
  unfold rules_at, remove_rules.
  induction t as [|r t IH]; simpl; [reflexivity|].
  rewrite (Z.eqb_sym (hashCode d)), (Z.eqb_sym (hashCode d + 1)).
  destruct (id r =? hashCode d)%Z eqn:E1; simpl; [exact IH|].
  destruct (id r =? hashCode d + 1)%Z eqn:E2; simpl; [exact IH|].
  rewrite E1, E2. simpl. exact IH.
Qed.

(** ** The sequential behaviour *)

(** Where the table holds no rule at the two ids of a Blocked
    domain, and the host fails no call of its own and rejects or
    ignores an add for an id it holds, the toggles are idempotent:
    two calls of toggleRulesetFuerDomain(d, false) in a row return
    without error, d occurs once in disabledDomains, the rules at the
    two ids are the two allow rules of d, and the second call changes
    neither the set nor the table; toggleRulesetFuerDomain(d, true) on
    the Blocked domain returns without error and leaves the exemption
    set and the table as they were. *)
Lemma idempotent_on_free_ids (d : jsstring) (w : world) :
  faults w = [] ->
  includes (exemptionSet w) d = false ->
  rules_at d (sessionRules w) = [] ->
  let once := run (toggleRulesetFuerDomain d false) w in
  let twice := run (toggleRulesetFuerDomain d false) (snd once) in
  let again := run (toggleRulesetFuerDomain d true) w in
  fst once = inl tt /\ fst twice = inl tt
  /\ occurrences d (exemptionSet (snd twice)) = 1
  /\ rules_at d (sessionRules (snd twice))
     = [ {| id := hashCode d; priority := 100000; action := allow;
            condition := {| initiatorDomains := Some [d];
                            requestDomains := None;
                            resourceTypes := all_resourceTypes |} |};
         {| id := (hashCode d + 1)%Z; priority := 100000; action := allow;
            condition := {| initiatorDomains := None;
                            requestDomains := Some [d];
                            resourceTypes := all_resourceTypes |} |} ]
  /\ exemptionSet (snd twice) = exemptionSet (snd once)
  /\ sessionRules (snd twice) = sessionRules (snd once)
  /\ fst again = inl tt
  /\ exemptionSet (snd again) = exemptionSet w
  /\ sessionRules (snd again) = sessionRules w.
Proof.
  intros Hf Hd Hr. cbv zeta.
  destruct (toggle_run d false w Hf) as (w1 & R1 & F1 & P1 & S1 & T1).
  destruct (toggle_run d false w1 F1) as (w2 & R2 & F2 & P2 & S2 & T2).
  destruct (toggle_run d true w Hf) as (w3 & R3 & F3 & P3 & S3 & T3).
  rewrite R1. cbn [fst snd]. rewrite R2, R3. cbn [fst snd].
  rewrite mutate_disable_absent in S1 by exact Hd.
  rewrite table_after_disable_free in T1 by exact Hr.
  assert (Hin : includes (exemptionSet w1) d = true).
  { rewrite S1, includes_app, includes_self. apply orb_true_r. }
  rewrite mutate_disable_present in S2 by exact Hin.
  rewrite T1, P1, table_after_disable_again in T2.
  rewrite mutate_enable_absent in S3 by exact Hd.
  assert (T3' : sessionRules w3 = sessionRules w).
  { rewrite T3. unfold table_after. apply remove_free, Hr. }
  repeat split; auto.
  - rewrite S2, S1. unfold occurrences. rewrite filter_app, length_app.
    fold (occurrences d (exemptionSet w)).
    rewrite occurrences_absent by exact Hd.
    simpl. rewrite jsstring_eqb_refl. reflexivity.
  - rewrite T2, rules_at_app, Hr, rules_at_pair. reflexivity.
  - rewrite T2, T1. reflexivity.
Qed.

(** C2, at the input that shows the defect.  The toggles are
    idempotent for a Blocked domain whose two ids no rule of the table
    holds (first part, see [idempotent_on_free_ids]); they are not for
    every domain.  With c0.com exempted and an.com Blocked, whether
    the host rejects or ignores an add for an id it holds: the ids of
    an.com are those of c0.com, 1414883264 and 1414883265; two calls
    of toggleRulesetFuerDomain("an.com", false) return without error
    and put an.com into disabledDomains once, but the table stays the
    two rules of c0.com and holds no rule for an.com; and
    toggleRulesetFuerDomain("an.com", true) on the Blocked an.com
    does change something: it empties the table, taking away the pair
    of c0.com, which is still in disabledDomains. *)
Theorem C2_idempotent_unless_ids_shared :
  (forall (d : jsstring) (w : world),
      faults w = [] ->
      includes (exemptionSet w) d = false ->
      rules_at d (sessionRules w) = [] ->
      let once := run (toggleRulesetFuerDomain d false) w in
      let twice := run (toggleRulesetFuerDomain d false) (snd once) in
      let again := run (toggleRulesetFuerDomain d true) w in
      fst once = inl tt /\ fst twice = inl tt
      /\ occurrences d (exemptionSet (snd twice)) = 1
      /\ rules_at d (sessionRules (snd twice))
         = [ {| id := hashCode d; priority := 100000; action := allow;
                condition := {| initiatorDomains := Some [d];
                                requestDomains := None;
                                resourceTypes := all_resourceTypes |} |};
             {| id := (hashCode d + 1)%Z; priority := 100000;
                action := allow;
                condition := {| initiatorDomains := None;
                                requestDomains := Some [d];
                                resourceTypes := all_resourceTypes |} |} ]
      /\ exemptionSet (snd twice) = exemptionSet (snd once)
      /\ sessionRules (snd twice) = sessionRules (snd once)
      /\ fst again = inl tt
      /\ exemptionSet (snd again) = exemptionSet w
      /\ sessionRules (snd again) = sessionRules w)
  /\ forall pol : duplicate_policy,
       let w0 := fresh_session empty_storage pol in
       let w1 := snd (run (toggleRulesetFuerDomain Samples.c0_com false) w0) in
       let once := run (toggleRulesetFuerDomain Samples.an_com false) w1 in
       let twice :=
         run (toggleRulesetFuerDomain Samples.an_com false) (snd once) in
       let again := run (toggleRulesetFuerDomain Samples.an_com true) w1 in
       let rules_of_c0_com :=
         [ {| id := 1414883264; priority := 100000; action := allow;
              condition := {| initiatorDomains := Some [Samples.c0_com];
                              requestDomains := None;
                              resourceTypes := all_resourceTypes |} |};
           {| id := 1414883265; priority := 100000; action := allow;
              condition := {| initiatorDomains := None;
                              requestDomains := Some [Samples.c0_com];
                              resourceTypes := all_resourceTypes |} |} ] in
       Samples.an_com <> Samples.c0_com
       /\ hashCode Samples.an_com = 1414883264%Z
       /\ faults w1 = []
       /\ exemptionSet w1 = [Samples.c0_com]
       /\ sessionRules w1 = rules_of_c0_com
       /\ fst once = inl tt /\ fst twice = inl tt
       /\ exemptionSet (snd twice) = [Samples.c0_com; Samples.an_com]
       /\ sessionRules (snd twice) = rules_of_c0_com
       /\ fst again = inl tt
       /\ exemptionSet (snd again) = [Samples.c0_com]
       /\ sessionRules (snd again) = [].
Proof.
  split.
  - exact idempotent_on_free_ids.
  - intros pol. cbv zeta.
    split; [discriminate|]. split; [vm_compute; reflexivity|].
    destruct pol.
    + split; [vm_compute; reflexivity|]. split; [vm_compute; reflexivity|].
      split; [vm_compute; reflexivity|]. split; [vm_compute; reflexivity|].
      split; [vm_compute; reflexivity|]. split; [vm_compute; reflexivity|].
      split; [vm_compute; reflexivity|]. split; [vm_compute; reflexivity|].
      split; vm_compute; reflexivity.
    + split; [vm_compute; reflexivity|]. split; [vm_compute; reflexivity|].
      split; [vm_compute; reflexivity|]. split; [vm_compute; reflexivity|].
      split; [vm_compute; reflexivity|]. split; [vm_compute; reflexivity|].
      split; [vm_compute; reflexivity|]. split; [vm_compute; reflexivity|].
      split; vm_compute; reflexivity.
Qed.

Lemma C2_idempotent_unless_ids_shared_witness :
  let w := fresh_session empty_storage RejectDuplicate in
  let twice :=
    run (toggleRulesetFuerDomain Samples.x_com false)
        (snd (run (toggleRulesetFuerDomain Samples.x_com false) w)) in
  faults w = []
  /\ includes (exemptionSet w) Samples.x_com = false
  /\ rules_at Samples.x_com (sessionRules w) = []
  /\ occurrences Samples.x_com (exemptionSet (snd twice)) = 1
  /\ map id (rules_at Samples.x_com (sessionRules (snd twice)))
     = [112291595; 112291596]%Z.
Proof.
  cbv zeta.
  destruct (proj1 C2_idempotent_unless_ids_shared Samples.x_com
              (fresh_session empty_storage RejectDuplicate)
              eq_refl eq_refl eq_refl)
    as (_ & _ & H3 & H4 & _).
  split; [reflexivity|]. split; [reflexivity|]. split; [reflexivity|].
  split; [exact H3|]. rewrite H4. vm_compute. reflexivity.
Defined.

(** C3, as amended: for a domain d that is not in the persisted
    exemption set before the first call, and a host that fails no
    call of its own, toggleRulesetFuerDomain(d, false) followed by
    toggleRulesetFuerDomain(d, true) returns twice without error,
    brings the exemption set back to what it was before the first
    call, and leaves no session rule at the ids hash(d) and
    hash(d)+1. *)
Theorem C3_round_trip (d : jsstring) (w : world) :
  faults w = [] ->
  includes (exemptionSet w) d = false ->
  let there := run (toggleRulesetFuerDomain d false) w in
  let back := run (toggleRulesetFuerDomain d true) (snd there) in
  fst there = inl tt /\ fst back = inl tt
  /\ exemptionSet (snd back) = exemptionSet w
  /\ rules_at d (sessionRules (snd back)) = [].
Proof.
  intros Hf Hd. cbv zeta.
  destruct (toggle_run d false w Hf) as (w1 & R1 & F1 & P1 & S1 & T1).
  destruct (toggle_run d true w1 F1) as (w2 & R2 & F2 & P2 & S2 & T2).
  rewrite R1. cbn [fst snd]. rewrite R2. cbn [fst snd].
  repeat split.
  - rewrite S2, S1, mutate_disable_absent by exact Hd.
    unfold mutate. rewrite filter_app, filter_absent by exact Hd.
    simpl. rewrite jsstring_eqb_refl. simpl. apply app_nil_r.
  - rewrite T2. unfold table_after. apply rules_at_removed.
Qed.

Lemma C3_round_trip_witness :
  let w := fresh_session empty_storage RejectDuplicate in
  let there := run (toggleRulesetFuerDomain Samples.x_com false) w in
  let back := run (toggleRulesetFuerDomain Samples.x_com true) (snd there) in
  faults w = []
  /\ includes (exemptionSet w) Samples.x_com = false
  /\ exemptionSet (snd back) = exemptionSet w
  /\ rules_at Samples.x_com (sessionRules (snd back)) = [].
Proof.
  cbv zeta.
  destruct (@C3_round_trip Samples.x_com
              (fresh_session empty_storage RejectDuplicate) eq_refl eq_refl)
    as (_ & _ & H3 & H4).
  split; [reflexivity|]. split; [reflexivity|].
  split; [exact H3 | exact H4].
Defined.

(** C3, as stated, fails: when x.com is exempted already, disabling
    and then enabling blocking for it does not bring the exemption
    set back to what it was, it takes x.com out. *)
Lemma C3_counterexample :
  let w := fresh_session (exempting [Samples.x_com]) RejectDuplicate in
  let there := run (toggleRulesetFuerDomain Samples.x_com false) w in
  let back := run (toggleRulesetFuerDomain Samples.x_com true) (snd there) in
  exemptionSet w = [Samples.x_com]
  /\ exemptionSet (snd back) = []
  /\ exemptionSet (snd back) <> exemptionSet w.
Proof.
  cbv zeta. split; [reflexivity|].
  assert (E : exemptionSet
                (snd (run (toggleRulesetFuerDomain Samples.x_com true)
                   (snd (run (toggleRulesetFuerDomain Samples.x_com false)
                      (fresh_session (exempting [Samples.x_com])
                                     RejectDuplicate))))) = [])
    by (vm_compute; reflexivity).
  split; [exact E|]. rewrite E. discriminate.
Qed.

(** C4, at the inputs that show the defect: the ids derived by
    [hashCode] are not kept apart.  The distinct domains an.com and
    c0.com get the same pair of ids; the second id of x.cn is the
    first id of x.co; and the first id of elevh.io is 4, the id the
    compiler gives to the fourth rule of a list compiled with
    startId 1. *)
Theorem C4_override_ids_collide :
  Samples.an_com <> Samples.c0_com
  /\ hashCode Samples.an_com = hashCode Samples.c0_com
  /\ Samples.x_cn <> Samples.x_co
  /\ (hashCode Samples.x_cn + 1)%Z = hashCode Samples.x_co
  /\ exists r rule,
       Precompiler.precompileFilterList 100
         (Precompiler.JSString Samples.four_patterns)
         {| Precompiler.startId := Some 1%Z;
            Precompiler.opt_priority := Some 1%Z |}
       = Precompiler.Returned r
       /\ In rule (Precompiler.rules r)
       /\ Precompiler.id rule = hashCode Samples.elevh_io.
Proof.
  split; [discriminate|]. split; [vm_compute; reflexivity|].
  split; [discriminate|]. split; [vm_compute; reflexivity|].
  eexists. eexists. split; [vm_compute; reflexivity|].
  split; [do 3 right; left; reflexivity | vm_compute; reflexivity].
Qed.

(** What the shared ids do to the override engine: with c0.com
    exempted, exempting an.com adds an.com to the persisted set, but
    both add calls hit ids in use and the table keeps holding the
    rules of c0.com only. *)
Lemma collision_leaves_no_pair :
  let w0 := fresh_session empty_storage RejectDuplicate in
  let w1 := snd (run (toggleRulesetFuerDomain Samples.c0_com false) w0) in
  let w2 := snd (run (toggleRulesetFuerDomain Samples.an_com false) w1) in
  exemptionSet w2 = [Samples.c0_com; Samples.an_com]
  /\ sessionRules w2 = overridePair Samples.c0_com
  /\ rules_at Samples.an_com (sessionRules w2) <> overridePair Samples.an_com.
Proof.
  cbv zeta. split; [vm_compute; reflexivity|].
  split; [vm_compute; reflexivity|].
  vm_compute. discriminate.
Qed.

(** ** Host calls that fail *)

Lemma exec_ok (c : call) (w : world) :
  fails_at 0 w = false ->
  exec c w
  = (fst (perform c w),
     log_call c (negb (is_rejected (fst (perform c w)))) (tl (faults w))
              (snd (perform c w))).
Proof.
  unfold fails_at, exec, next_fault. intros H.
  destruct (faults w) as [|b rest]; simpl in *.
  - destruct (perform c w); reflexivity.
  - subst b. destruct (perform c w); reflexivity.
Qed.

Lemma exec_trace (c : call) (w : world) :
  exists b, trace (snd (exec c w)) = trace w ++ [(c, b)].
Proof.
  unfold exec. destruct (next_fault w) as [[|] rest].
  - eexists. reflexivity.
  - destruct (perform c w) as [r w'] eqn:E. eexists. simpl.
    replace (trace w') with (trace w); [reflexivity|].
    destruct c; simpl in E; try (inversion E; reflexivity).
    destruct (add_rules _ _ _); inversion E; reflexivity.
Qed.

Lemma exec_session_storage (c : call) (w : world) :
  is_updateSessionRules c = true ->
  storage (snd (exec c w)) = storage w.
Proof.
  destruct c; try discriminate. intros _.
  unfold exec. destruct (next_fault w) as [[|] rest]; [reflexivity|].
  simpl. destruct (add_rules _ _ _); reflexivity.
Qed.

Lemma exec_leaves_overrides (c : call) (w : world) :
  leaves_overrides c = true ->
  sessionRules (snd (exec c w)) = sessionRules w
  /\ disabledDomains (storage (snd (exec c w))) = disabledDomains (storage w).
Proof.
  intros H. unfold exec. destruct (next_fault w) as [[|] rest]; [auto|].
  destruct c as [|[b|b v|l]| | |]; try discriminate; simpl; auto.
Qed.

(** An async function that only makes session-rule calls leaves the
    storage alone. *)
Lemma run_only_session (A : Type) (p : proc A) :
  only_calls is_updateSessionRules p ->
  forall w,
    exists tl,
      storage (snd (run p w)) = storage w
      /\ trace (snd (run p w)) = trace w ++ tl
      /\ forallb (fun e => is_updateSessionRules (fst e)) tl = true.
Proof.
  induction p as [a|e|c k IH]; simpl; intros H w.
  - exists []. rewrite app_nil_r. auto.
  - exists []. rewrite app_nil_r. auto.
  - destruct H as [Hc Hk].
    pose proof (exec_session_storage c w Hc) as Hs.
    destruct (exec_trace c w) as [b Ht].
    destruct (exec c w) as [r w1]. simpl in Hs, Ht.
    destruct (IH r (Hk r) w1) as (tl & S1 & T1 & F1).
    exists ((c, b) :: tl). rewrite S1, T1, Hs, Ht, <- app_assoc.
    simpl. rewrite Hc, F1. auto.
Qed.

(** An async function that makes no session-rule call and no write
    of [disabledDomains] leaves both as they are. *)
Lemma run_leaves_overrides (A : Type) (p : proc A) :
  only_calls leaves_overrides p ->
  forall w,
    sessionRules (snd (run p w)) = sessionRules w
    /\ disabledDomains (storage (snd (run p w)))
       = disabledDomains (storage w).
Proof.
  induction p as [a|e|c k IH]; simpl; intros H w; auto.
  destruct H as [Hc Hk].
  destruct (exec_leaves_overrides c w Hc) as [H1 H2].
  destruct (exec c w) as [r w1]. simpl in H1, H2.
  destruct (IH r (Hk r) w1) as [H3 H4].
  rewrite H3, H4. auto.
Qed.

Lemma update_only_session (d : jsstring) (en : bool) :
  only_calls is_updateSessionRules (updateSessionRulesForDomain d en).
Proof.
  unfold updateSessionRulesForDomain. destruct en; simpl.
  - split; [reflexivity|]. intros [e| |st]; exact I.
  - split; [reflexivity|]. intros [e| |st]; simpl; try exact I.
    + split; [reflexivity|]. intros [e| |st']; exact I.
    + split; [reflexivity|]. intros [e| |st']; exact I.
Qed.

Lemma never_throws (A : Type) (p : proc A) (a : A) (w : world) :
  exists a', fst (run (try_catch p (fun _ => Ret a)) w) = inl a'.
Proof.
  rewrite run_try_catch. destruct (run p w) as [[a'|e] w'].
  - exists a'. reflexivity.
  - exists a. reflexivity.
Qed.

(** Whatever the host does, [toggleRulesetFuerDomain] and
    [toggleRuleset] return: their own handlers take every error. *)
Lemma toggle_domain_returns (d : jsstring) (en : bool) (w : world) :
  fst (run (toggleRulesetFuerDomain d en) w) = inl tt.
Proof.
  unfold toggleRulesetFuerDomain.
  match goal with
  | |- fst (run (try_catch ?p _) _) = _ =>
      destruct (never_throws p tt w) as [[] H]
  end.
  exact H.
Qed.

(** A host call that the host is scripted to fail. *)
Lemma exec_fail (c : call) (w : world) :
  fails_at 0 w = true ->
  exec c w
  = (Rejected "host error"%string, log_call c false (tl (faults w)) w).
Proof.
  unfold fails_at, exec, next_fault. intros H.
  destruct (faults w) as [|b rest]; simpl in *; [discriminate|].
  subst b. reflexivity.
Qed.

(** C5, as amended: in a toggle whose storage read and write are not
    failed by the host, the write of the exemption set is made before
    any session-rule call and it stands whatever becomes of those
    calls: after the toggle the persisted set is the mutated one, and
    the host calls of the toggle are the read, the write, and then
    session-rule calls only.  So when the first add call of an
    exempting toggle fails, the domain is in the persisted set while
    the table is what it was before the toggle. *)
Theorem C5_persist_before_adapter (d : jsstring) (en : bool) (w : world) :
  fails_at 0 w = false ->
  fails_at 1 w = false ->
  let w' := snd (run (toggleRulesetFuerDomain d en) w) in
  let l := mutate d en (exemptionSet w) in
  exemptionSet w' = l
  /\ (exists tl,
         trace w'
         = trace w
           ++ [(storage_local_get, true);
               (storage_local_set (items_disabledDomains l), true)]
           ++ tl
         /\ forallb (fun e => is_updateSessionRules (fst e)) tl = true)
  /\ (en = false ->
      fails_at 2 w = true ->
      includes (exemptionSet w') d = true
      /\ sessionRules w' = sessionRules w).
Proof.
  intros H0 H1. cbv zeta. unfold toggleRulesetFuerDomain.
  run_step. rewrite exec_ok by exact H0.
  cbn [perform fst snd is_rejected negb items_of].
  run_step. rewrite exec_ok.
  2:{ unfold fails_at in *. cbn [faults log_call].
      destruct (faults w) as [|b rest]; [reflexivity | exact H1]. }
  cbn [perform fst snd is_rejected negb].
  set (w1 := log_call _ true _ (set_state _ _ _ _)).
  rewrite run_bind.
  destruct (@run_only_session _ _ (update_only_session d en) w1)
    as (tl & S & T & F).
  assert (L : en = false -> fails_at 2 w = true ->
              sessionRules (snd (run (updateSessionRulesForDomain d en) w1))
              = sessionRules w).
  { intros -> H2. unfold updateSessionRulesForDomain.
    run_step. rewrite exec_fail.
    - reflexivity.
    - unfold fails_at in *. subst w1. cbn [faults log_call set_state].
      destruct (faults w) as [|b0 [|b1 rest]]; simpl in *;
        try discriminate; exact H2. }
  assert (M : en = false -> includes (mutate d en (exemptionSet w)) d = true).
  { intros ->. apply (mutate_includes (exemptionSet w) d false). }
  destruct (run (updateSessionRulesForDomain d en) w1) as [[[]|e] w2];
    cbn [fst snd run] in *.
  - split; [unfold exemptionSet; rewrite S; reflexivity|].
    split.
    + exists tl. rewrite T. split; [|exact F].
      subst w1. cbn [trace log_call set_state]. rewrite <- !app_assoc.
      reflexivity.
    + intros E2 H2. split; [|exact (L E2 H2)].
      unfold exemptionSet at 1. rewrite S. exact (M E2).
  - split; [unfold exemptionSet; rewrite S; reflexivity|].
    split.
    + exists tl. rewrite T. split; [|exact F].
      subst w1. cbn [trace log_call set_state]. rewrite <- !app_assoc.
      reflexivity.
    + intros E2 H2. split; [|exact (L E2 H2)].
      unfold exemptionSet at 1. rewrite S. exact (M E2).
Qed.

Lemma C5_persist_before_adapter_witness :
  let w := with_faults [false; false; true]
                       (fresh_session empty_storage RejectDuplicate) in
  let w' := snd (run (toggleRulesetFuerDomain Samples.x_com false) w) in
  fails_at 0 w = false
  /\ fails_at 1 w = false
  /\ exemptionSet w' = mutate Samples.x_com false (exemptionSet w)
  /\ includes (exemptionSet w') Samples.x_com = true
  /\ sessionRules w' = sessionRules w.
Proof.
  cbv zeta.
  destruct (@C5_persist_before_adapter Samples.x_com false
              (with_faults [false; false; true]
                 (fresh_session empty_storage RejectDuplicate))
              eq_refl eq_refl) as (H & _ & K).
  split; [reflexivity|]. split; [reflexivity|]. split; [exact H|].
  exact (K eq_refl eq_refl).
Defined.

(** C5, as stated, fails: when the host fails the first add call of
    toggleRulesetFuerDomain("x.com", false), the exemption set has
    been written before that call and keeps x.com, though the table
    holds no rule of its pair. *)
Lemma C5_counterexample :
  let w := with_faults [false; false; true]
                       (fresh_session empty_storage RejectDuplicate) in
  let w' := snd (run (toggleRulesetFuerDomain Samples.x_com false) w) in
  trace w'
  = [(storage_local_get, true);
     (storage_local_set (items_disabledDomains [Samples.x_com]), true);
     (updateSessionRules []
        [initiatorRule (hashCode Samples.x_com) Samples.x_com], false)]
  /\ exemptionSet w' = [Samples.x_com]
  /\ sessionRules w' = [].
Proof. cbv zeta. repeat split; vm_compute; reflexivity. Qed.

(** C6, at the input that shows the defect: a toggle message for a
    domain and without a tab is answered with success whatever the
    host does, because [updateSessionRulesForDomain] and
    [toggleRulesetFuerDomain] take every error themselves; so it is
    for x.com when the host fails the first add call: the answer is
    success, the failed call is in the trace, and no rule is in the
    table. *)
Theorem C6_adapter_error_answered_with_success :
  (forall (w : world) (c : jschar) (d : jsstring) (enabled : bool),
      fst (run (handleToggleBlocking (toggle_request (c :: d) enabled)) w)
      = inl (response_success enabled))
  /\ let w := with_faults [false; false; true]
                          (fresh_session empty_storage RejectDuplicate) in
     let answer :=
       run (handleToggleBlocking (toggle_request Samples.x_com false)) w in
     fst answer = inl (response_success false)
     /\ In (updateSessionRules []
              [initiatorRule (hashCode Samples.x_com) Samples.x_com], false)
           (trace (snd answer))
     /\ sessionRules (snd answer) = [].
Proof.
  split.
  - intros w c d enabled. unfold handleToggleBlocking, toggle_request.
    cbn [req_isEnabled req_domain req_tabId truthy_string truthy_number
         or_empty_string].
    rewrite run_try_catch, !run_bind.
    pose proof (toggle_domain_returns (c :: d) enabled w) as H.
    destruct (run (toggleRulesetFuerDomain (c :: d) enabled) w)
      as [[[]|e] w1]; [reflexivity | discriminate].
  - cbv zeta. split; [vm_compute; reflexivity|].
    split; [vm_compute; do 2 right; left; reflexivity|].
    vm_compute; reflexivity.
Qed.

Lemma only_calls_bind (A B : Type) (ok : call -> bool) (p : proc A)
      (f : A -> proc B) :
  only_calls ok p -> (forall a, only_calls ok (f a)) ->
  only_calls ok (bind p f).
Proof.
  induction p as [a|e|c k IH]; simpl; intros Hp Hf; auto.
  destruct Hp as [Hc Hk]. split; [exact Hc|].
  intros r. apply IH; auto.
Qed.

Lemma toggleRuleset_leaves_overrides (b : bool) :
  only_calls leaves_overrides (toggleRuleset b).
Proof.
  unfold toggleRuleset. simpl. split; [reflexivity|].
  intros [e| |st]; simpl; try exact I.
  - split; [reflexivity|]. intros r. exact I.
  - split; [reflexivity|]. intros r. exact I.
Qed.

Lemma onStartup_leaves_overrides : only_calls leaves_overrides onStartup.
Proof.
  unfold onStartup. apply only_calls_bind.
  - simpl. split; [reflexivity|]. intros [e| |st]; exact I.
  - intros result. apply only_calls_bind.
    + apply toggleRuleset_leaves_overrides.
    + intros a. exact I.
Qed.

Lemma initialisieren_leaves_overrides (v : string) :
  only_calls leaves_overrides (initialisieren v).
Proof.
  unfold initialisieren. apply only_calls_bind.
  - simpl. split; [reflexivity|]. intros r. exact I.
  - intros a. apply only_calls_bind.
    + apply toggleRuleset_leaves_overrides.
    + intros a'. exact I.
Qed.

(** C7, as amended: the startup path, like the install path, only
    re-applies the global ruleset flag.  Whatever the world, it
    leaves the session-rule table and the persisted exemption set as
    they are: it installs no allow pair for any stored domain. *)
Theorem C7_startup_installs_nothing (w : world) (manifest_version : string) :
  let started := snd (run onStartup w) in
  let installed := snd (run (initialisieren manifest_version) w) in
  sessionRules started = sessionRules w
  /\ exemptionSet started = exemptionSet w
  /\ sessionRules installed = sessionRules w
  /\ exemptionSet installed = exemptionSet w.
Proof.
  cbv zeta. unfold exemptionSet.
  destruct (@run_leaves_overrides _ _ onStartup_leaves_overrides w)
    as [H1 H2].
  destruct (@run_leaves_overrides _ _
              (initialisieren_leaves_overrides manifest_version) w)
    as [H3 H4].
  rewrite H1, H2, H3, H4. auto.
Qed.

(** C7, as stated, fails: in a session that starts with x.com in the
    persisted exemption set and an empty session-rule table, the
    startup path leaves the table empty. *)
Lemma C7_counterexample :
  let w := fresh_session (exempting [Samples.x_com]) RejectDuplicate in
  let started := snd (run onStartup w) in
  exemptionSet started = [Samples.x_com]
  /\ sessionRules started = []
  /\ rules_at Samples.x_com (sessionRules started)
     <> overridePair Samples.x_com.
Proof.
  cbv zeta. split; [vm_compute; reflexivity|].
  split; [vm_compute; reflexivity|].
  vm_compute. discriminate.
Qed.

End OverrideFacts.

(** * Two toggles at once *)

Module SchedulerFacts.
Import Background Scheduler OverrideFacts.

Lemma only_calls_try_catch (A : Type) (ok : call -> bool) (p : proc A)
      (h : string -> proc A) :
  only_calls ok p -> (forall e, only_calls ok (h e)) ->
  only_calls ok (try_catch p h).
Proof.
  induction p as [a|e|c k IH]; simpl; intros Hp Hh; auto.
  destruct Hp as [Hc Hk]. split; [exact Hc|].
  intros r. apply IH; auto.
Qed.

Lemma exec_keeps_no_faults (c : call) (w : world) :
  faults w = [] -> faults (snd (exec c w)) = [].
Proof.
  intros H. rewrite exec_no_faults by exact H. reflexivity.
Qed.

(** The read of a toggle. *)
Lemma resume_before_read (d : jsstring) (en : bool) (w : world) :
  faults w = [] ->
  resume (toggleRulesetFuerDomain d en) w
  = Some (after_read d en (storage w),
          log_call storage_local_get true [] w).
Proof.
  intros H. unfold toggleRulesetFuerDomain. simpl.
  rewrite exec_no_faults by exact H. reflexivity.
Qed.

(** The write of a toggle; what is left makes session-rule calls
    only. *)
Lemma resume_before_write (d : jsstring) (en : bool) (st : Storage)
      (w : world) :
  faults w = [] ->
  exists p w',
    resume (after_read d en st) w = Some (p, w')
    /\ only_calls is_updateSessionRules p
    /\ faults w' = []
    /\ exemptionSet w' = mutate d en (or_empty (disabledDomains st)).
Proof.
  intros H. unfold after_read. simpl.
  rewrite exec_no_faults by exact H. simpl.
  eexists. eexists. split; [reflexivity|].
  split; [|split; reflexivity].
  apply only_calls_try_catch; [|intros e; exact I].
  apply only_calls_bind; [apply update_only_session | intros a; exact I].
Qed.

(** A session-rule call of a toggle. *)
Lemma resume_after_write (p : proc unit) (w : world) p' w' :
  faults w = [] ->
  only_calls is_updateSessionRules p ->
  resume p w = Some (p', w') ->
  only_calls is_updateSessionRules p'
  /\ faults w' = []
  /\ storage w' = storage w.
Proof.
  intros Hf Hp Hr. destruct p as [a|e|c k]; try discriminate.
  simpl in Hr, Hp. destruct Hp as [Hc Hk].
  pose proof (exec_keeps_no_faults c w Hf) as F.
  pose proof (exec_session_storage c w Hc) as S.
  destruct (exec c w) as [r w1]. inversion Hr; subst.
  simpl in F, S. auto.
Qed.

(** One move of one of the two handlers keeps the invariant. *)
Lemma resume_invariant (d : jsstring) (en : bool) (l0 : list jsstring)
      (st : stage) (p : proc unit) (w : world) p' w' :
  faults w = [] ->
  same_but d (exemptionSet w) l0 ->
  at_stage d en l0 st p ->
  resume p w = Some (p', w') ->
  faults w' = []
  /\ same_but d (exemptionSet w') l0
  /\ exists st',
       at_stage d en l0 st' p'
       /\ (behind_write st = true ->
           behind_write st' = true /\ exemptionSet w' = exemptionSet w)
       /\ (behind_write st = false ->
           (behind_write st' = false /\ exemptionSet w' = exemptionSet w)
           \/ (behind_write st' = true
               /\ includes (exemptionSet w') d = negb en)).
Proof.
  intros Hf Hs Hst Hr. destruct st as [|snapshot|]; simpl in Hst.
  - subst p. rewrite resume_before_read in Hr by exact Hf.
    inversion Hr; subst. split; [reflexivity|]. split; [exact Hs|].
    exists (BeforeWrite (storage w)). split; [split; [reflexivity|exact Hs]|].
    split; [discriminate|]. intros _. left. split; reflexivity.
  - destruct Hst as [-> Hsnap].
    destruct (resume_before_write d en snapshot w Hf)
      as (q & w1 & R & O & F & E).
    rewrite R in Hr. inversion Hr; subst.
    split; [exact F|]. split.
    + intros x Hx. rewrite E, mutate_other by exact Hx. apply Hsnap, Hx.
    + exists AfterWrite. split; [exact O|]. split; [discriminate|].
      intros _. right. split; [reflexivity|].
      rewrite E. apply mutate_includes.
  - destruct (@resume_after_write p w p' w' Hf Hst Hr) as (O & F & S).
    assert (E : exemptionSet w' = exemptionSet w)
      by (unfold exemptionSet; rewrite S; reflexivity).
    split; [exact F|]. split; [rewrite E; exact Hs|].
    exists AfterWrite. split; [exact O|].
    split; [intros _; split; [reflexivity | exact E] | discriminate].
Qed.

Lemma step_invariant (d : jsstring) (en1 en2 : bool) (l0 : list jsstring)
      (t : tid) (s s' : system) :
  invariant d en1 en2 l0 s ->
  step t s = Some s' ->
  invariant d en1 en2 l0 s'.
Proof.
  intros (Hf & Hs & s1 & s2 & A1 & A2 & W) H.
  destruct t; unfold step in H.
  - destruct (resume (first s) (shared s)) as [[p' w']|] eqn:R;
      [|discriminate].
    inversion H; subst; clear H.
    destruct (@resume_invariant d en1 l0 s1 _ _ _ _ Hf Hs A1 R)
      as (F & S' & st' & A' & B1 & B2).
    split; [exact F|]. split; [exact S'|].
    exists st', s2. cbn [first second shared].
    split; [exact A'|]. split; [exact A2|].
    intros Hb. destruct (behind_write s1) eqn:E1.
    + destruct (B1 eq_refl) as [_ E]. rewrite E. apply W. reflexivity.
    + destruct (B2 eq_refl) as [[E2 E]|[_ E]]; [|left; exact E].
      rewrite E. apply W. rewrite E2 in Hb. exact Hb.
  - destruct (resume (second s) (shared s)) as [[p' w']|] eqn:R;
      [|discriminate].
    inversion H; subst; clear H.
    destruct (@resume_invariant d en2 l0 s2 _ _ _ _ Hf Hs A2 R)
      as (F & S' & st' & A' & B1 & B2).
    split; [exact F|]. split; [exact S'|].
    exists s1, st'. cbn [first second shared].
    split; [exact A1|]. split; [exact A'|].
    intros Hb. destruct (behind_write s2) eqn:E2.
    + destruct (B1 eq_refl) as [_ E]. rewrite E. apply W.
      apply orb_true_r.
    + destruct (B2 eq_refl) as [[E2' E]|[_ E]]; [|right; exact E].
      rewrite E. apply W. rewrite E2', orb_false_r in Hb.
      rewrite Hb. reflexivity.
Qed.

Lemma run_schedule_invariant (d : jsstring) (en1 en2 : bool)
      (l0 : list jsstring) (schedule : list tid) :
  forall s s',
    invariant d en1 en2 l0 s ->
    run_schedule schedule s = Some s' ->
    invariant d en1 en2 l0 s'.
Proof.
  induction schedule as [|t rest IH]; simpl; intros s s' Hi H.
  - inversion H; subst. exact Hi.
  - destruct (step t s) as [s1|] eqn:E; [|discriminate].
    apply (IH s1); [|exact H].
    apply (step_invariant _ Hi E).
Qed.

Lemma ended_stage (d : jsstring) (en : bool) (l0 : list jsstring)
      (st : stage) (p : proc unit) :
  at_stage d en l0 st p -> ended p = true -> behind_write st = true.
Proof.
  destruct st; simpl; auto.
  - intros ->. discriminate.
  - intros [-> _]. discriminate.
Qed.

(** The exemption set after the two toggles one after the other. *)
Lemma one_after_the_other_set (d : jsstring) (en1 en2 : bool) (w : world) :
  faults w = [] ->
  exemptionSet (one_after_the_other d en1 en2 w)
  = mutate d en2 (mutate d en1 (exemptionSet w)).
Proof.
  intros Hf. unfold one_after_the_other.
  destruct (toggle_run d en1 w Hf) as (w1 & R1 & F1 & _ & S1 & _).
  rewrite R1. cbn [snd].
  destruct (toggle_run d en2 w1 F1) as (w2 & R2 & _ & _ & S2 & _).
  rewrite R2. cbn [snd]. rewrite S2, S1. reflexivity.
Qed.

Lemma same_members (d : jsstring) (en1 en2 : bool) (l l0 : list jsstring) :
  same_but d l l0 ->
  includes l d = negb en2 ->
  forall x, In x l <-> In x (mutate d en2 (mutate d en1 l0)).
Proof.
  intros Hs Hd x.
  destruct (list_eq_dec Z.eq_dec x d) as [->|Hx].
  - rewrite <- !includes_In, Hd, mutate_includes. tauto.
  - rewrite !mutate_other by exact Hx. apply Hs, Hx.
Qed.

(** C10, as amended: two toggles for one domain d, started together
    from a world whose host fails no call of its own, and interleaved
    at their host calls in any way down to the end of both: the
    persisted exemption set at the end has d in it or not as one of
    the two callers asked, and it has the members it has when the
    two toggles run one after the other, in one of the two orders.
    Nothing makes the read, the change and the write of a toggle one
    piece; only the members of the set come out as if they were. *)
Theorem C10_same_domain_toggles (d : jsstring) (en1 en2 : bool) (w : world)
        (schedule : list tid) (s' : system) :
  faults w = [] ->
  run_schedule schedule (two_toggles d en1 en2 w) = Some s' ->
  finished s' = true ->
  let final := exemptionSet (shared s') in
  (includes final d = negb en1 \/ includes final d = negb en2)
  /\ ((forall x, In x final
                 <-> In x (exemptionSet (one_after_the_other d en1 en2 w)))
      \/ (forall x, In x final
                    <-> In x (exemptionSet (one_after_the_other d en2 en1 w)))).
Proof.
  intros Hf Hrun Hfin. cbv zeta.
  assert (Hi : invariant d en1 en2 (exemptionSet w) (two_toggles d en1 en2 w)).
  { split; [exact Hf|]. split; [intros x _; reflexivity|].
    exists BeforeRead, BeforeRead. cbn. repeat split. discriminate. }
  pose proof (run_schedule_invariant _ Hi Hrun)
    as (_ & Hs & s1 & s2 & A1 & _ & W).
  unfold finished in Hfin. apply andb_true_iff in Hfin.
  destruct Hfin as [E1 _].
  pose proof (ended_stage _ _ _ _ _ A1 E1) as B1.
  assert (Hd : includes (exemptionSet (shared s')) d = negb en1
               \/ includes (exemptionSet (shared s')) d = negb en2)
    by (apply W; rewrite B1; reflexivity).
  split; [exact Hd|].
  rewrite !one_after_the_other_set by exact Hf.
  destruct Hd as [Hd|Hd].
  - right. apply same_members; assumption.
  - left. apply same_members; assumption.
Qed.

Lemma C10_same_domain_toggles_witness :
  let w := fresh_session empty_storage RejectDuplicate in
  exists s',
    faults w = []
    /\ run_schedule Samples.overlapping_schedule
                    (two_toggles Samples.x_com false true w) = Some s'
    /\ finished s' = true
    /\ (includes (exemptionSet (shared s')) Samples.x_com = negb false
        \/ includes (exemptionSet (shared s')) Samples.x_com = negb true).
Proof.
  cbv zeta.
  assert (E : exists s',
             run_schedule Samples.overlapping_schedule
               (two_toggles Samples.x_com false true
                  (fresh_session empty_storage RejectDuplicate)) = Some s'
             /\ finished s' = true).
  { vm_compute. eexists. split; reflexivity. }
  destruct E as (s' & E & F). exists s'.
  split; [reflexivity|]. split; [exact E|]. split; [exact F|].
  exact (proj1 (@C10_same_domain_toggles Samples.x_com false true
                  (fresh_session empty_storage RejectDuplicate)
                  Samples.overlapping_schedule s' eq_refl E F)).
Defined.

(** C10, as stated, fails: the read, change and write of a toggle
    are not one piece.  With x.com and y.com exempted, a toggle that
    blocks x.com and one that exempts it both read the list before
    either writes; the second then writes back the list it read, and
    the persisted list ends as [x.com; y.com], which is the list after
    neither order of the two toggles run one after the other
    ([y.com; x.com] and [y.com]). *)
Lemma C10_counterexample :
  let w := fresh_session (exempting [Samples.x_com; Samples.y_com])
                         RejectDuplicate in
  exists s',
    run_schedule Samples.stale_write_schedule
                 (two_toggles Samples.x_com true false w) = Some s'
    /\ finished s' = true
    /\ exemptionSet (shared s') = [Samples.x_com; Samples.y_com]
    /\ exemptionSet (one_after_the_other Samples.x_com true false w)
       = [Samples.y_com; Samples.x_com]
    /\ exemptionSet (one_after_the_other Samples.x_com false true w)
       = [Samples.y_com]
    /\ exemptionSet (shared s')
       <> exemptionSet (one_after_the_other Samples.x_com true false w)
    /\ exemptionSet (shared s')
       <> exemptionSet (one_after_the_other Samples.x_com false true w).
Proof.
  cbv zeta.
  assert (E : exists s',
             run_schedule Samples.stale_write_schedule
               (two_toggles Samples.x_com true false
                  (fresh_session (exempting [Samples.x_com; Samples.y_com])
                                 RejectDuplicate)) = Some s'
             /\ finished s' = true
             /\ exemptionSet (shared s') = [Samples.x_com; Samples.y_com]).
  { vm_compute. eexists. repeat split; reflexivity. }
  destruct E as (s' & E & F & L). exists s'.
  assert (S12 : exemptionSet
                  (one_after_the_other Samples.x_com true false
                     (fresh_session (exempting [Samples.x_com; Samples.y_com])
                                    RejectDuplicate))
                = [Samples.y_com; Samples.x_com])
    by (vm_compute; reflexivity).
  assert (S21 : exemptionSet
                  (one_after_the_other Samples.x_com false true
                     (fresh_session (exempting [Samples.x_com; Samples.y_com])
                                    RejectDuplicate))
                = [Samples.y_com])
    by (vm_compute; reflexivity).
  split; [exact E|]. split; [exact F|]. split; [exact L|].
  split; [exact S12|]. split; [exact S21|].
  rewrite L, S12, S21. split; discriminate.
Qed.

End SchedulerFacts.


(** * Further properties of the precompiler *)

Module PrecompilerMore.
Import Precompiler LineSpec Texts PrecompilerFacts.

(** More fuel does not change what a loop that ended gave. *)
Lemma while_more_fuel (S : Type) (cond : S -> bool) (body : S -> option S) :
  forall fuel fuel' s r,
    JS.while fuel cond body s = Some r ->
    fuel <= fuel' ->
    JS.while fuel' cond body s = Some r.
Proof.
  induction fuel as [|fuel IH]; intros fuel' s r H Hle; [discriminate|].
  destruct fuel' as [|fuel']; [lia|].
  rewrite while_S in H |- *.
  destruct (cond s); [|exact H].
  destruct (body s) as [s'|]; [|discriminate].
  apply (IH fuel' s' r H). lia.
Qed.

(** From an overlong line on, the main loop never ends. *)
Lemma stuck_at_overlong (text : jsstring) (p : Z) (fuel : nat) :
  forall lineStart v,
    no_overlong (skipn lineStart text) = false ->
    JS.while fuel (fun s => fst s <? length text) (loopBody text p)
             (lineStart, v)
    = None.
Proof.
  induction fuel as [|fuel IH]; intros lineStart v Hno; [reflexivity|].
  rewrite while_S. cbn [fst].
  destruct (skipn lineStart text) as [|c r] eqn:E; [discriminate|].
  destruct (skipn_cons_inv _ _ E) as (_ & _ & Hlt).
  replace (lineStart <? length text) with true
    by (symmetry; apply Nat.ltb_lt; lia).
  assert (Hne : c :: r <> []) by discriminate.
  pose proof (cut_lines_find Hne) as Hcut.
  pose proof (loopBody_line text p lineStart v E) as Hbody.
  unfold no_overlong, logicalLines in Hno.
  destruct (JS.find_index 10%Z (c :: r)) as [k|].
  - destruct Hcut as [Hk Hcut]. rewrite Hcut in Hno.
    simpl map in Hno. simpl forallb in Hno. rewrite Hbody.
    destruct (overlong CONFIG.MAX_FILTER_LENGTH
                (trimmed (without_cr (firstn k (c :: r))))) eqn:O.
    + apply IH. rewrite E. unfold no_overlong, logicalLines.
      rewrite Hcut. simpl map. simpl forallb. rewrite O. reflexivity.
    + simpl in Hno. apply IH.
      replace (skipn (lineStart + k + 1) text) with (skipn (S k) (c :: r))
        by (rewrite <- E, skipn_skipn; f_equal; lia).
      exact Hno.
  - rewrite Hcut in Hno. simpl map in Hno. simpl forallb in Hno.
    rewrite andb_true_r in Hno. apply negb_false_iff in Hno.
    rewrite Hbody, Hno.
    apply IH. rewrite E. unfold no_overlong, logicalLines.
    rewrite Hcut. simpl map. simpl forallb. rewrite Hno. reflexivity.
Qed.

Lemma overlong_never_returns (text : jsstring) (options : Options)
      (fuel : nat) :
  no_overlong text = false ->
  precompileFilterList fuel (JSString text) options = OutOfFuel.
Proof.
  intros Hno. unfold precompileFilterList.
  destruct (length text =? 0) eqn:E0.
  - apply Nat.eqb_eq, length_zero_iff_nil in E0. subst. discriminate.
  - rewrite stuck_at_overlong; [reflexivity | exact Hno].
Qed.

(** What a returned result is. *)
Lemma returned_inv (text : jsstring) (options : Options) (fuel : nat)
      (r : Result) :
  precompileFilterList fuel (JSString text) options = Returned r ->
  no_overlong text = true
  /\ r = {| rules := numbered (JS.or_default (startId options) 1)
                              (JS.or_default (opt_priority options) 1)
                              (patterns text);
            stats :=
              {| totalLines := Z.of_nat (length (logicalLines text));
                 processedRules := Z.of_nat (length (patterns text));
                 skippedLines := Z.of_nat (length (logicalLines text))
                                 - Z.of_nat (length (patterns text));
                 errors := 0 |} |}%Z.
Proof.
  intros H.
  destruct (no_overlong text) eqn:Hno.
  2:{ rewrite overlong_never_returns in H by exact Hno. discriminate. }
  split; [reflexivity|].
  pose proof (@precompile_returns text options (S (length text)) Hno
                (Nat.lt_succ_diag_r _)) as Hbig.
  unfold precompileFilterList in H, Hbig.
  destruct (length text =? 0); [congruence|].
  destruct (JS.while fuel _ _ _) as [[n v]|] eqn:W; [|discriminate].
  destruct (Nat.le_ge_cases fuel (S (length text))) as [Hle|Hge].
  - rewrite (while_more_fuel _ _ _ W Hle) in Hbig. congruence.
  - destruct (JS.while (S (length text)) _ _ _) as [[n' v']|] eqn:W';
      [|discriminate].
    rewrite (while_more_fuel _ _ _ W' Hge) in W. congruence.
Qed.

(** X1: the compiler returns on a text, with enough fuel, exactly
    when no line of the text is overlong; with an overlong line it
    does not return with any fuel. *)
Theorem precompile_returns_iff (text : jsstring) (options : Options) :
  (exists fuel r,
      precompileFilterList fuel (JSString text) options = Returned r)
  <-> no_overlong text = true.
Proof.
  split.
  - intros (fuel & r & H). apply (returned_inv _ _ _ H).
  - intros Hno. exists (S (length text)). eexists.
    apply precompile_returns; [exact Hno | lia].
Qed.

Lemma length_filter_le (A : Type) (f : A -> bool) (l : list A) :
  length (filter f l) <= length l.
Proof.
  induction l as [|x l IH]; simpl; [lia|].
  destruct (f x); simpl; lia.
Qed.

(** X2: in every result the statistics add up: totalLines is the
    number of logical lines of the text, processedRules the number of
    rules, skippedLines the rest, and errors is 0. *)
Theorem stats_account (text : jsstring) (options : Options) (fuel : nat)
        (r : Result) :
  precompileFilterList fuel (JSString text) options = Returned r ->
  totalLines (stats r) = Z.of_nat (length (logicalLines text))
  /\ processedRules (stats r) = Z.of_nat (length (rules r))
  /\ (processedRules (stats r) + skippedLines (stats r)
      = totalLines (stats r))%Z
  /\ (0 <= skippedLines (stats r))%Z
  /\ errors (stats r) = 0%Z.
Proof.
  intros H. destruct (returned_inv _ _ _ H) as [_ ->].
  cbn [stats rules totalLines processedRules skippedLines errors].
  rewrite length_numbered.
  assert (length (patterns text) <= length (logicalLines text)).
  { unfold patterns.
    pose proof (length_filter_le (wellFormed CONFIG.MAX_FILTER_LENGTH)
                  (map trimmed (logicalLines text))) as L.
    rewrite length_map in L. exact L. }
  repeat split; lia.
Qed.

Lemma stats_account_witness :
  precompileFilterList 100 (JSString Samples.small_list)
    {| startId := None; opt_priority := None |}
  = Returned
      {| rules := numbered 1 1 (patterns Samples.small_list);
         stats := {| totalLines := 6; processedRules := 2;
                     skippedLines := 4; errors := 0 |} |}
  /\ totalLines {| totalLines := 6; processedRules := 2;
                   skippedLines := 4; errors := 0 |}
     = Z.of_nat (length (logicalLines Samples.small_list)).
Proof.
  assert (H : precompileFilterList 100 (JSString Samples.small_list)
                {| startId := None; opt_priority := None |}
              = Returned
                  {| rules := numbered 1 1 (patterns Samples.small_list);
                     stats := {| totalLines := 6; processedRules := 2;
                                 skippedLines := 4; errors := 0 |} |})
    by (vm_compute; reflexivity).
  split; [exact H|].
  exact (proj1 (stats_account _ _ _ H)).
Defined.

Lemma numbered_ids (ts : list jsstring) :
  forall s p,
    Forall (fun i => (s <= i)%Z) (map id (numbered s p ts))
    /\ NoDup (map id (numbered s p ts)).
Proof.
  induction ts as [|t ts IH]; intros s p; simpl.
  - split; constructor.
  - destruct (IH (s + 1)%Z p) as [Hge Hnd]. split.
    + constructor; [lia|].
      eapply Forall_impl; [|exact Hge]. simpl. intros; lia.
    + constructor; [|exact Hnd].
      intros Hin. rewrite Forall_forall in Hge.
      specialize (Hge _ Hin). lia.
Qed.

(** X3: the ids of a result are pairwise distinct and grow along the
    list: a rule further back has the larger id. *)
Theorem ids_distinct_and_growing (text : jsstring) (options : Options)
        (fuel : nat) (r : Result) :
  precompileFilterList fuel (JSString text) options = Returned r ->
  NoDup (map id (rules r))
  /\ forall i j ri rj,
       i < j ->
       nth_error (rules r) i = Some ri ->
       nth_error (rules r) j = Some rj ->
       (id ri < id rj)%Z.
Proof.
  intros H. destruct (returned_inv _ _ _ H) as [_ ->]. cbn [rules].
  split; [apply numbered_ids|].
  intros i j ri rj Hij Hi Hj.
  rewrite nth_error_numbered in Hi, Hj.
  destruct (nth_error (patterns text) i); [|discriminate].
  destruct (nth_error (patterns text) j); [|discriminate].
  simpl in Hi, Hj. inversion Hi; inversion Hj; subst. simpl. lia.
Qed.

Lemma ids_distinct_and_growing_witness :
  exists r,
    precompileFilterList 100 (JSString Samples.four_patterns)
      {| startId := Some 1%Z; opt_priority := Some 1%Z |} = Returned r
    /\ NoDup (map id (rules r)).
Proof.
  eexists.
  refine ((fun H => conj H (proj1 (ids_distinct_and_growing _ _ _ H))) _).
  vm_compute. reflexivity.
Defined.

(** Dropping from the front takes a run of trimmed characters away
    and stops before a character that is kept. *)
Lemma drop_front_split (x : jsstring) :
  exists a, x = a ++ drop_front x /\ forallb is_trim_char a = true.
Proof.
  induction x as [|c x IH]; simpl.
  - exists []. auto.
  - destruct (is_trim_char c) eqn:E.
    + destruct IH as (a & Ha & Hws). exists (c :: a). simpl.
      rewrite E, Hws. split; [f_equal; exact Ha | reflexivity].
    + exists []. auto.
Qed.

Lemma drop_front_clean (x : jsstring) : starts_clean (drop_front x) = true.
Proof.
  induction x as [|c x IH]; simpl; [reflexivity|].
  destruct (is_trim_char c) eqn:E; [exact IH|].
  simpl. rewrite E. reflexivity.
Qed.

Lemma clean_drop_front (x : jsstring) :
  starts_clean x = true -> drop_front x = x.
Proof.
  destruct x as [|c x]; simpl; [reflexivity|].
  intros H. apply negb_true_iff in H. rewrite H. reflexivity.
Qed.

Lemma starts_clean_prefix (m b : jsstring) :
  starts_clean (m ++ b) = true -> m <> [] -> starts_clean m = true.
Proof. destruct m; [congruence | auto]. Qed.

(** The trimmed line sits in the line between two runs of trimmed
    characters, and is clean at both ends. *)
Lemma trimmed_split (l : jsstring) :
  exists a b,
    l = a ++ trimmed l ++ b
    /\ forallb is_trim_char a = true
    /\ forallb is_trim_char b = true
    /\ starts_clean (trimmed l) = true
    /\ starts_clean (rev (trimmed l)) = true.
Proof.
  unfold trimmed.
  destruct (drop_front_split l) as (a & Ha & Hwa).
  destruct (drop_front_split (rev (drop_front l))) as (b & Hb & Hwb).
  set (d := drop_front l) in *. set (e := drop_front (rev d)) in *.
  assert (Hd : d = rev e ++ rev b).
  { rewrite <- rev_app_distr, <- Hb. symmetry. apply rev_involutive. }
  exists a, (rev b). split; [rewrite <- Hd; exact Ha|].
  split; [exact Hwa|]. split.
  - rewrite forallb_forall in Hwb |- *. intros x Hx.
    apply Hwb. apply in_rev. exact Hx.
  - split.
    + destruct (rev e) as [|c m] eqn:Em; [reflexivity|].
      pose proof (drop_front_clean l) as Hc. fold d in Hc.
      rewrite Hd in Hc. exact Hc.
    + rewrite rev_involutive. apply drop_front_clean.
Qed.

Lemma trimmed_idempotent (l : jsstring) : trimmed (trimmed l) = trimmed l.
Proof.
  destruct (trimmed_split l) as (_ & _ & _ & _ & _ & H1 & H2).
  unfold trimmed at 1.
  rewrite (clean_drop_front _ H1), (clean_drop_front _ H2).
  apply rev_involutive.
Qed.

(** X5: the trimming loops always end, and what they leave is the
    line without a run of spaces, tabs and carriage returns at its
    front and one at its back: it neither starts nor ends with such a
    character, and trimming it again changes nothing. *)
Theorem trim_exact (line : jsstring) :
  exists t a b,
    trim line = Some t
    /\ line = a ++ t ++ b
    /\ forallb is_trim_char a = true
    /\ forallb is_trim_char b = true
    /\ starts_clean t = true
    /\ starts_clean (rev t) = true
    /\ trim t = Some t.
Proof.
  destruct (trimmed_split line) as (a & b & H1 & H2 & H3 & H4 & H5).
  exists (trimmed line), a, b.
  rewrite !trim_trimmed, trimmed_idempotent. auto 10.
Qed.

(** ** Lines of a text put together *)

Lemma cut_lines_nil (x : jsstring) : cut_lines x = [] -> x = [].
Proof.
  destruct x as [|c x]; [reflexivity|]. simpl.
  destruct (c =? 10)%Z; [discriminate|].
  destruct (cut_lines x); discriminate.
Qed.

Lemma cut_lines_no_lf (s : jsstring) :
  forall l, In l (cut_lines s) -> ~ In 10%Z l.
Proof.
  induction s as [|c s IH]; simpl; [tauto|].
  destruct (c =? 10)%Z eqn:E.
  - intros l [<-|H]; [tauto | apply IH, H].
  - apply Z.eqb_neq in E.
    destruct (cut_lines s) as [|l0 ls].
    + intros l [<-|[]]. simpl. intros [H|[]]. congruence.
    + intros l [<-|H].
      * simpl. intros [H|H]; [congruence|].
        apply (IH l0); [left; reflexivity | exact H].
      * apply IH. right. exact H.
Qed.

(** A line feed at the end adds no line, or one empty line. *)
Lemma cut_lines_closed (a : jsstring) :
  exists extra,
    cut_lines (a ++ [10%Z]) = cut_lines a ++ extra
    /\ (extra = [] \/ extra = [[]]).
Proof.
  induction a as [|c a IH]; simpl.
  - exists [[]]. auto.
  - destruct IH as (extra & E & Hex).
    destruct (c =? 10)%Z.
    + exists extra. rewrite E. auto.
    + rewrite E. destruct (cut_lines a) as [|l ls] eqn:C.
      * apply cut_lines_nil in C. subst a. simpl in E.
        exists []. simpl.
        destruct Hex as [->| ->]; [discriminate | auto].
      * exists extra. auto.
Qed.

Lemma cut_lines_app (a b : jsstring) :
  cut_lines (a ++ 10%Z :: b) = cut_lines (a ++ [10%Z]) ++ cut_lines b.
Proof.
  induction a as [|c a IH]; simpl; [reflexivity|].
  destruct (c =? 10)%Z; [rewrite IH; reflexivity|].
  rewrite IH.
  destruct (cut_lines (a ++ [10%Z])) as [|l ls] eqn:C; [|reflexivity].
  apply cut_lines_nil in C. destruct a; discriminate.
Qed.

Lemma cut_lines_line (t : jsstring) :
  ~ In 10%Z t -> cut_lines (t ++ [10%Z]) = [t].
Proof.
  induction t as [|c t IH]; simpl; [reflexivity|].
  intros H. destruct (c =? 10)%Z eqn:E.
  - apply Z.eqb_eq in E. exfalso. apply H. left. congruence.
  - rewrite IH; [reflexivity|]. intros Hin. apply H. right. exact Hin.
Qed.

Lemma cut_lines_unlines (ts : list jsstring) :
  Forall (fun t => ~ In 10%Z t) ts -> cut_lines (unlines ts) = ts.
Proof.
  unfold unlines. induction 1 as [|t ts Ht Hts IH]; simpl; [reflexivity|].
  rewrite <- app_assoc. simpl. rewrite cut_lines_app, cut_lines_line, IH by
    exact Ht. reflexivity.
Qed.

(** The patterns and the overlong lines of two texts joined by a line
    feed. *)
Lemma patterns_closed (a : jsstring) :
  patterns (a ++ [10%Z]) = patterns a
  /\ no_overlong (a ++ [10%Z]) = no_overlong a.
Proof.
  unfold patterns, no_overlong, logicalLines.
  destruct (cut_lines_closed a) as (extra & -> & [->| ->]).
  - rewrite app_nil_r. auto.
  - rewrite !map_app, filter_app, forallb_app. simpl.
    rewrite app_nil_r, andb_true_r. auto.
Qed.

Lemma patterns_app (a b : jsstring) :
  patterns (a ++ 10%Z :: b) = patterns a ++ patterns b
  /\ no_overlong (a ++ 10%Z :: b) = no_overlong a && no_overlong b.
Proof.
  destruct (patterns_closed a) as [P N].
  unfold patterns, no_overlong, logicalLines in *.
  rewrite cut_lines_app, !map_app, filter_app, forallb_app, P, N. auto.
Qed.

(** X6: two lists compiled as one text, joined by a line feed, give
    the rules of the first followed by the rules of the second
    compiled with the ids that come next. *)
Theorem compile_joined (a b : jsstring) (s : Z) (p : option Z)
        (fuelA fuelB : nat) (ra rb : Result) :
  (0 < s)%Z ->
  precompileFilterList fuelA (JSString a)
    {| startId := Some s; opt_priority := p |} = Returned ra ->
  precompileFilterList fuelB (JSString b)
    {| startId := Some (s + processedRules (stats ra))%Z;
       opt_priority := p |} = Returned rb ->
  exists fuel r,
    precompileFilterList fuel (JSString (a ++ 10%Z :: b))
      {| startId := Some s; opt_priority := p |} = Returned r
    /\ rules r = rules ra ++ rules rb
    /\ processedRules (stats r)
       = (processedRules (stats ra) + processedRules (stats rb))%Z.
Proof.
  intros Hs Ha Hb.
  destruct (returned_inv _ _ _ Ha) as [Na ->].
  destruct (returned_inv _ _ _ Hb) as [Nb ->].
  destruct (patterns_app a b) as [P N].
  exists (S (length (a ++ 10%Z :: b))). eexists.
  split.
  - apply precompile_returns; [rewrite N, Na, Nb; reflexivity | lia].
  - cbn [rules stats processedRules startId opt_priority].
    rewrite P, length_app.
    assert (E1 : JS.or_default (Some s) 1 = s) by (destruct s; reflexivity || lia).
    assert (E2 : JS.or_default
                   (Some (s + Z.of_nat (length (patterns a)))%Z) 1
                 = (s + Z.of_nat (length (patterns a)))%Z).
    { destruct (s + Z.of_nat (length (patterns a)))%Z eqn:E;
        [lia | reflexivity | reflexivity]. }
    rewrite E1, E2. split; [|lia].
    generalize (JS.or_default p 1). generalize (patterns b).
    generalize s. clear.
    induction (patterns a) as [|t ts IH]; intros s0 tb q; simpl.
    + rewrite Z.add_0_r. reflexivity.
    + f_equal. rewrite IH. do 2 f_equal. lia.
Qed.

Lemma compile_joined_witness :
  exists ra rb fuel r,
    (0 < 1)%Z
    /\ precompileFilterList 100 (JSString Samples.four_patterns)
         {| startId := Some 1%Z; opt_priority := None |} = Returned ra
    /\ precompileFilterList 100 (JSString Samples.small_list)
         {| startId := Some (1 + processedRules (stats ra))%Z;
            opt_priority := None |} = Returned rb
    /\ precompileFilterList fuel
         (JSString (Samples.four_patterns ++ 10%Z :: Samples.small_list))
         {| startId := Some 1%Z; opt_priority := None |} = Returned r
    /\ rules r = rules ra ++ rules rb.
Proof.
  assert (Ha : exists ra,
             precompileFilterList 100 (JSString Samples.four_patterns)
               {| startId := Some 1%Z; opt_priority := None |} = Returned ra
             /\ processedRules (stats ra) = 4%Z).
  { vm_compute. eexists. split; reflexivity. }
  destruct Ha as (ra & Ha & Hn).
  assert (Hb : exists rb,
             precompileFilterList 100 (JSString Samples.small_list)
               {| startId := Some (1 + processedRules (stats ra))%Z;
                  opt_priority := None |} = Returned rb).
  { rewrite Hn. vm_compute. eexists. reflexivity. }
  destruct Hb as (rb & Hb).
  destruct (@compile_joined Samples.four_patterns Samples.small_list 1 None
              100 100 ra rb eq_refl Ha Hb) as (fuel & r & H1 & H2 & _).
  exists ra, rb, fuel, r.
  split; [reflexivity|]. split; [exact Ha|]. split; [exact Hb|].
  split; [exact H1 | exact H2].
Defined.

(** ** What the rules hold *)

Lemma filters_numbered (ts : list jsstring) :
  forall s p,
    map (fun rule => urlFilter (condition rule)) (numbered s p ts) = ts.
Proof.
  induction ts as [|t ts IH]; intros s p; simpl; [reflexivity|].
  rewrite IH. reflexivity.
Qed.

Lemma In_trimmed (x : jschar) (l : jsstring) : In x (trimmed l) -> In x l.
Proof.
  intros H. destruct (trimmed_split l) as (a & b & E & _).
  rewrite E, !in_app_iff. auto.
Qed.

Lemma In_without_cr (x : jschar) (l : jsstring) :
  In x (without_cr l) -> In x l.
Proof.
  unfold without_cr. destruct (rev l) as [|c r] eqn:E; [auto|].
  destruct (c =? 13)%Z; [|auto].
  intros H. apply in_rev. rewrite E. right. apply in_rev. exact H.
Qed.

Lemma wellFormed_anchored (n : nat) (t : jsstring) :
  wellFormed n t = true ->
  anchored t = true /\ length (domainBody t) <= n.
Proof.
  unfold wellFormed. intros H.
  apply andb_true_iff in H. destruct H as [H _].
  apply andb_true_iff in H. destruct H as [H L].
  apply andb_true_iff in H. destruct H as [H _].
  split; [exact H | apply Nat.leb_le, L].
Qed.

Lemma wellFormed_without_cr (n : nat) (t : jsstring) :
  wellFormed n t = true -> without_cr t = t.
Proof.
  intros H. destruct (wellFormed_anchored _ _ H) as [A _].
  unfold anchored in A. apply andb_true_iff in A. destruct A as [_ A].
  unfold without_cr. destruct (rev t) as [|z r]; [reflexivity|].
  apply Z.eqb_eq in A. subst z. reflexivity.
Qed.

Lemma wellFormed_not_overlong (n : nat) (t : jsstring) :
  wellFormed n t = true -> overlong n t = false.
Proof.
  intros H. destruct (wellFormed_anchored _ _ H) as [_ L].
  unfold overlong. apply andb_false_iff. right. apply Nat.ltb_ge, L.
Qed.

(** Every pattern of a text is a well-formed, trimmed line without a
    line feed. *)
Lemma patterns_sound (text : jsstring) :
  Forall (fun t => wellFormed CONFIG.MAX_FILTER_LENGTH t = true
                   /\ trimmed t = t
                   /\ ~ In 10%Z t)
         (patterns text).
Proof.
  apply Forall_forall. intros t Ht. unfold patterns in Ht.
  apply filter_In in Ht. destruct Ht as [Ht W].
  apply in_map_iff in Ht. destruct Ht as (l & <- & Hl).
  unfold logicalLines in Hl.
  apply in_map_iff in Hl. destruct Hl as (l0 & <- & Hl0).
  split; [exact W|]. split; [apply trimmed_idempotent|].
  intros H. apply In_trimmed, In_without_cr in H.
  apply (cut_lines_no_lf _ _ Hl0 H).
Qed.

(** X4: every rule of a result holds a valid pattern: its urlFilter
    is well-formed in the sense of the validator, carries no space,
    tab or carriage return at either end, and holds no line feed. *)
Theorem filters_valid (text : jsstring) (options : Options) (fuel : nat)
        (r : Result) :
  precompileFilterList fuel (JSString text) options = Returned r ->
  Forall (fun t => wellFormed CONFIG.MAX_FILTER_LENGTH t = true
                   /\ trimmed t = t
                   /\ ~ In 10%Z t)
         (filtersOf r).
Proof.
  intros H. destruct (returned_inv _ _ _ H) as [_ ->].
  unfold filtersOf. cbn [rules]. rewrite filters_numbered.
  apply patterns_sound.
Qed.

Lemma filters_valid_witness :
  exists r,
    precompileFilterList 100 (JSString Samples.small_list)
      {| startId := None; opt_priority := None |} = Returned r
    /\ Forall (fun t => wellFormed CONFIG.MAX_FILTER_LENGTH t = true
                        /\ trimmed t = t
                        /\ ~ In 10%Z t)
              (filtersOf r).
Proof.
  eexists.
  refine ((fun H => conj H (filters_valid _ _ _ H)) _).
  vm_compute. reflexivity.
Defined.

Lemma map_fixed (A : Type) (f : A -> A) (l : list A) :
  Forall (fun x => f x = x) l -> map f l = l.
Proof.
  induction 1 as [|x l Hx Hl IH]; simpl; [reflexivity|].
  rewrite Hx, IH. reflexivity.
Qed.

Lemma filter_all (A : Type) (f : A -> bool) (l : list A) :
  Forall (fun x => f x = true) l -> filter f l = l.
Proof.
  induction 1 as [|x l Hx Hl IH]; simpl; [reflexivity|].
  rewrite Hx, IH. reflexivity.
Qed.

(** The patterns written out line by line are their own patterns. *)
Lemma patterns_unlines (ts : list jsstring) :
  Forall (fun t => wellFormed CONFIG.MAX_FILTER_LENGTH t = true
                   /\ trimmed t = t
                   /\ ~ In 10%Z t) ts ->
  patterns (unlines ts) = ts /\ no_overlong (unlines ts) = true.
Proof.
  intros H. unfold patterns, no_overlong, logicalLines.
  rewrite cut_lines_unlines
    by (eapply Forall_impl; [|exact H]; simpl; tauto).
  rewrite (map_fixed without_cr)
    by (eapply Forall_impl; [|exact H]; simpl;
        intros t (W & _ & _); apply (wellFormed_without_cr _ _ W)).
  split.
  - rewrite (map_fixed trimmed)
      by (eapply Forall_impl; [|exact H]; simpl; tauto).
    apply filter_all. eapply Forall_impl; [|exact H]. simpl. tauto.
  - apply forallb_forall. intros t Ht.
    rewrite Forall_forall in H. destruct (H t Ht) as (W & T & _).
    rewrite T, (wellFormed_not_overlong _ _ W). reflexivity.
Qed.

(** X7: compiling the urlFilters of a result, written one to a line,
    gives the same rules again. *)
Theorem recompile_own_output (text : jsstring) (options : Options)
        (fuel : nat) (r : Result) :
  precompileFilterList fuel (JSString text) options = Returned r ->
  exists fuel' r',
    precompileFilterList fuel' (JSString (unlines (filtersOf r))) options
    = Returned r'
    /\ rules r' = rules r.
Proof.
  intros H. destruct (returned_inv _ _ _ H) as [_ ->].
  unfold filtersOf. cbn [rules]. rewrite filters_numbered.
  destruct (patterns_unlines (patterns_sound text)) as [P N].
  exists (S (length (unlines (patterns text)))). eexists. split.
  - apply precompile_returns; [exact N | lia].
  - cbn [rules]. rewrite P. reflexivity.
Qed.

Lemma recompile_own_output_witness :
  exists r fuel' r',
    precompileFilterList 100 (JSString Samples.small_list)
      {| startId := Some 7%Z; opt_priority := None |} = Returned r
    /\ precompileFilterList fuel' (JSString (unlines (filtersOf r)))
         {| startId := Some 7%Z; opt_priority := None |} = Returned r'
    /\ rules r' = rules r.
Proof.
  assert (H : exists r,
             precompileFilterList 100 (JSString Samples.small_list)
               {| startId := Some 7%Z; opt_priority := None |} = Returned r)
    by (vm_compute; eexists; reflexivity).
  destruct H as (r & H).
  destruct (recompile_own_output _ _ _ H) as (fuel' & r' & H1 & H2).
  exists r, fuel', r'. split; [exact H|]. split; [exact H1 | exact H2].
Defined.

End PrecompilerMore.

(** * The command line of the precompiler *)

Module CliFacts.
Import Cli.

Lemma input_not_help (f : string) : is_input f = true -> is_help f = false.
Proof.
  unfold is_input. intros H. apply orb_true_iff in H.
  destruct H as [H|H]; apply String.eqb_eq in H; subst; reflexivity.
Qed.

Lemma output_not_help (f : string) :
  is_output f = true -> is_help f = false /\ is_input f = false.
Proof.
  unfold is_output. intros H. apply orb_true_iff in H.
  destruct H as [H|H]; apply String.eqb_eq in H; subst; split; reflexivity.
Qed.

(** The loop on a run of well-spelled options, and on what follows. *)
Lemma parseLoop_words (ws : list word) (rest : list string) :
  forallb spelled ws = true ->
  forall o,
    parseLoop (concat (map render ws) ++ rest) o
    = parseLoop rest
        {| input := last_input ws (input o);
           output := last_output ws (output o);
           help := help o || has_help ws |}.
Proof.
  induction ws as [|w ws IH]; simpl; intros H o.
  - rewrite orb_false_r. destruct o; reflexivity.
  - apply andb_true_iff in H. destruct H as [Hw Hws].
    destruct w as [f|f x|f x]; simpl in Hw |- *.
    + rewrite Hw, (IH Hws). simpl. rewrite orb_true_r. reflexivity.
    + rewrite (input_not_help _ Hw), Hw, (IH Hws). reflexivity.
    + destruct (output_not_help _ Hw) as [H1 H2].
      rewrite H1, H2, Hw, (IH Hws). reflexivity.
Qed.

(** X8: on a command line made of well-spelled options, each value
    flag followed by its value, parseArgs yields the value of the last
    input option, the value of the last output option ([null] when
    there is none) and help exactly when a help flag is among them;
    a value is taken as it stands, also when it reads like a flag.
    A value flag at the very end, with nothing behind it, sets its
    option to [undefined], whatever was given before. *)
Theorem parseArgs_words (ws : list word) :
  forallb spelled ws = true ->
  parseArgs (concat (map render ws))
  = {| input := last_input ws null;
       output := last_output ws null;
       help := has_help ws |}
  /\ (forall f, is_input f = true ->
        input (parseArgs (concat (map render ws) ++ [f])) = undefined)
  /\ (forall f, is_output f = true ->
        output (parseArgs (concat (map render ws) ++ [f])) = undefined).
Proof.
  intros H. unfold parseArgs. split; [|split].
  - rewrite <- (app_nil_r (concat (map render ws))).
    rewrite (parseLoop_words ws [] H). reflexivity.
  - intros f Hf. rewrite (parseLoop_words ws [f] H). simpl.
    rewrite (input_not_help _ Hf), Hf. reflexivity.
  - intros f Hf. rewrite (parseLoop_words ws [f] H). simpl.
    destruct (output_not_help _ Hf) as [H1 H2].
    rewrite H1, H2, Hf. reflexivity.
Qed.

Lemma parseArgs_words_witness :
  let ws := [w_input "-i" "a.txt"; w_output "--output" "out.json";
             w_input "--input" "--help"]%string in
  forallb spelled ws = true
  /\ parseArgs ["-i"; "a.txt"; "--output"; "out.json"; "--input"; "--help"]%string
     = {| input := given "--help"%string;
          output := given "out.json"%string;
          help := false |}.
Proof.
  cbv zeta. split; [reflexivity|].
  exact (proj1 (@parseArgs_words
                  [w_input "-i" "a.txt"; w_output "--output" "out.json";
                   w_input "--input" "--help"]%string eq_refl)).
Defined.

End CliFacts.

(** * The hash behind the override ids *)

Module HashFacts.
Import Background Texts.

Local Open Scope Z_scope.

Lemma toInt32_range (z : Z) : - 2 ^ 31 <= toInt32 z < 2 ^ 31.
Proof.
  unfold toInt32.
  pose proof (Z.mod_pos_bound (z + 2 ^ 31) (2 ^ 32) eq_refl). lia.
Qed.

Lemma toInt32_rep (z : Z) : exists k, toInt32 z = z + k * 2 ^ 32.
Proof.
  exists (- ((z + 2 ^ 31) / 2 ^ 32)). unfold toInt32.
  pose proof (Z.div_mod (z + 2 ^ 31) (2 ^ 32)). lia.
Qed.

Lemma toInt32_congr (a b k : Z) : a = b + k * 2 ^ 32 -> toInt32 a = toInt32 b.
Proof.
  intros ->. unfold toInt32.
  replace (b + k * 2 ^ 32 + 2 ^ 31) with (b + 2 ^ 31 + k * 2 ^ 32) by lia.
  rewrite Z_mod_plus_full. reflexivity.
Qed.

Lemma toInt32_eq_inv (a b : Z) :
  toInt32 a = toInt32 b -> exists k, a = b + k * 2 ^ 32.
Proof.
  intros H. destruct (toInt32_rep a) as [ka Ha].
  destruct (toInt32_rep b) as [kb Hb].
  exists (kb - ka). lia.
Qed.

Lemma and32_diag (x : Z) : and32 x x = toInt32 x.
Proof. unfold and32. apply Z.land_diag. Qed.

(** One round is a step of the hash to the base 31, cut to 32 bits:
    [(hash << 5) - hash] is 31 times the hash. *)
Lemma hashRound_poly (h c : Z) :
  hashRound (toInt32 h) c = toInt32 (31 * h + c).
Proof.
  unfold hashRound. rewrite and32_diag. unfold shl32.
  rewrite Z.shiftl_mul_pow2 by lia.
  destruct (toInt32_rep h) as [k1 H1].
  destruct (toInt32_rep (toInt32 h)) as [k2 H2].
  destruct (toInt32_rep (toInt32 (toInt32 h) * 2 ^ 5)) as [k3 H3].
  apply toInt32_congr with (k := 31 * k1 + 32 * k2 + k3).
  rewrite H3, H2, H1. lia.
Qed.

Lemma fold_hashRound (s : jsstring) :
  forall h,
    fold_left hashRound s (toInt32 h) = toInt32 (poly31 h s).
Proof.
  unfold poly31. induction s as [|c s IH]; intros h; simpl; [reflexivity|].
  rewrite hashRound_poly. apply IH.
Qed.

Lemma poly31_shift (s : jsstring) :
  forall h, poly31 h s = h * 31 ^ Z.of_nat (length s) + poly31 0 s.
Proof.
  unfold poly31. induction s as [|c s IH]; intros h.
  - simpl. lia.
  - cbn [fold_left length]. rewrite (IH (31 * h + c)), (IH (31 * 0 + c)).
    rewrite Nat2Z.inj_succ, Z.pow_succ_r by lia. lia.
Qed.

(** X9: [hashCode] is the absolute value of the hash to the base 31
    of the characters, cut to a signed 32-bit number; it lies between
    0 and 2^31, both included. *)
Theorem hashCode_poly (str : jsstring) :
  hashCode str = Z.abs (toInt32 (poly31 0 str))
  /\ 0 <= hashCode str <= 2 ^ 31.
Proof.
  assert (E : hashCode str = Z.abs (toInt32 (poly31 0 str))).
  { unfold hashCode. f_equal. apply (fold_hashRound str 0). }
  split; [exact E|]. rewrite E.
  pose proof (toInt32_range (poly31 0 str)). lia.
Qed.

(** X10: two strings of one length with the same hash before the
    absolute value give the same hash, and so the same pair of rule
    ids, in every domain that differs in nothing but them. *)
Theorem collisions_spread (a b : jsstring) :
  length a = length b ->
  fold_left hashRound a 0 = fold_left hashRound b 0 ->
  forall p q, hashCode (p ++ a ++ q) = hashCode (p ++ b ++ q).
Proof.
  intros Hlen Hab p q. unfold hashCode. f_equal.
  rewrite !fold_left_app. f_equal.
  rewrite (fold_hashRound a 0 : fold_left hashRound a 0 = _) in Hab.
  rewrite (fold_hashRound b 0 : fold_left hashRound b 0 = _) in Hab.
  rewrite (fold_hashRound p 0 : fold_left hashRound p 0 = _).
  rewrite !fold_hashRound.
  apply toInt32_eq_inv in Hab. destruct Hab as [k Hk].
  apply toInt32_congr with (k := k).
  rewrite (poly31_shift a), (poly31_shift b), Hlen. lia.
Qed.

Lemma collisions_spread_witness :
  length (lit "an"%string) = length (lit "c0"%string)
  /\ fold_left hashRound (lit "an"%string) 0
     = fold_left hashRound (lit "c0"%string) 0
  /\ hashCode (lit "www.f"%string ++ lit "an"%string ++ lit ".org"%string)
     = hashCode (lit "www.f"%string ++ lit "c0"%string ++ lit ".org"%string).
Proof.
  assert (H : fold_left hashRound (lit "an"%string) 0
              = fold_left hashRound (lit "c0"%string) 0)
    by (vm_compute; reflexivity).
  split; [reflexivity|]. split; [exact H|].
  exact (@collisions_spread (lit "an"%string) (lit "c0"%string) eq_refl H
           (lit "www.f"%string) (lit ".org"%string)).
Defined.

End HashFacts.

(** * Further properties of the override engine *)

Module OverrideMore.
Import Background OverrideFacts.

Lemma run_no_await (c : call) (w : world) :
  run (no_await c) w = (inl tt, snd (exec c w)).
Proof. unfold no_await. simpl. destruct (exec c w). reflexivity. Qed.

Lemma string_mem_app (x : string) (a b : list string) :
  string_mem x (a ++ b) = string_mem x a || string_mem x b.
Proof. unfold string_mem. apply existsb_app. Qed.

Lemma enabled_after_enable_of (r : string) (l : list string) :
  string_mem r (update_rulesets [r] [] l) = true.
Proof.
  unfold update_rulesets. rewrite string_mem_app.
  cbn [filter string_mem existsb negb].
  replace (filter (fun _ : string => true) l) with l
    by (clear; induction l; simpl; congruence).
  fold (string_mem r l).
  destruct (string_mem r l) eqn:E; [reflexivity|].
  cbn [negb existsb orb]. rewrite String.eqb_refl. reflexivity.
Qed.

Lemma disabled_after_disable_of (r : string) (l : list string) :
  string_mem r (update_rulesets [] [r] l) = false.
Proof.
  unfold update_rulesets. cbn [filter]. rewrite app_nil_r.
  induction l as [|x l IH]; [reflexivity|].
  cbn [filter string_mem existsb]. rewrite orb_false_r.
  destruct (String.eqb x r) eqn:E; cbn [negb]; [exact IH|].
  cbn [string_mem existsb]. rewrite String.eqb_sym, E. exact IH.
Qed.

Lemma enabled_after_enable (l : list string) :
  string_mem ruleset_1 (update_rulesets [ruleset_1] [] l) = true.
Proof. apply enabled_after_enable_of. Qed.

Lemma disabled_after_disable (l : list string) :
  string_mem ruleset_1 (update_rulesets [] [ruleset_1] l) = false.
Proof. apply disabled_after_disable_of. Qed.

(** The world after [toggleRuleset] when the host fails nothing. *)
Lemma toggleRuleset_run (b : bool) (w : world) :
  faults w = [] ->
  exists w',
    run (toggleRuleset b) w = (inl tt, w')
    /\ faults w' = []
    /\ storage w' = write_items (items_isEnabled b) (clock w) (storage w)
    /\ sessionRules w' = sessionRules w
    /\ enabledRulesets w'
       = update_rulesets (if b then [ruleset_1] else [])
                         (if b then [] else [ruleset_1])
                         (enabledRulesets w).
Proof.
  intros Hf. unfold toggleRuleset.
  run_step. rewrite exec_no_faults by exact Hf.
  cbn [perform fst snd is_rejected negb].
  rewrite run_bind, run_no_await, exec_no_faults by reflexivity.
  cbn. eexists. split; [reflexivity|]. cbn. auto.
Qed.

Lemma filter_idem (A : Type) (f : A -> bool) (l : list A) :
  filter f (filter f l) = filter f l.
Proof.
  induction l as [|x l IH]; [reflexivity|].
  cbn [filter]. destruct (f x) eqn:E; [|exact IH].
  cbn [filter]. rewrite E, IH. reflexivity.
Qed.

Lemma filter_true (A : Type) (l : list A) :
  filter (fun _ => true) l = l.
Proof. induction l; simpl; congruence. Qed.

(** Asking the host for the state ruleset_1 is in already leaves the
    list of enabled rulesets as it is. *)
Lemma update_rulesets_again (b : bool) (l : list string) :
  let ask := update_rulesets (if b then [ruleset_1] else [])
                             (if b then [] else [ruleset_1]) in
  ask (ask l) = ask l.
Proof.
  cbv zeta. destruct b.
  - pose proof (enabled_after_enable l) as H.
    set (l1 := update_rulesets [ruleset_1] [] l) in *.
    unfold update_rulesets at 1.
    cbn [string_mem existsb negb filter]. fold (string_mem ruleset_1 l1).
    rewrite H. cbn [negb]. rewrite app_nil_r. apply filter_true.
  - unfold update_rulesets. cbn [filter]. rewrite !app_nil_r.
    apply filter_idem.
Qed.

(** X11: [toggleRuleset], when the host fails no call, switches
    ruleset_1 on or off as asked and stores the flag with the time;
    the session rules and the exemption set stay as they are.  Asking
    a second time, at whatever time, is the same as asking once but
    for the time stored: the enabled rulesets stay as the first call
    left them, and the storage differs from the one the first call
    left in lastUpdate only, which is the time of the second call. *)
Theorem toggleRuleset_effect (b : bool) (w : world) (later : Z) :
  faults w = [] ->
  let once := run (toggleRuleset b) w in
  let twice := run (toggleRuleset b) (Clock.at_time later (snd once)) in
  fst once = inl tt
  /\ string_mem ruleset_1 (enabledRulesets (snd once)) = b
  /\ isEnabled (storage (snd once)) = Some b
  /\ lastUpdate (storage (snd once)) = Some (clock w)
  /\ sessionRules (snd once) = sessionRules w
  /\ exemptionSet (snd once) = exemptionSet w
  /\ fst twice = inl tt
  /\ enabledRulesets (snd twice) = enabledRulesets (snd once)
  /\ sessionRules (snd twice) = sessionRules w
  /\ storage (snd twice)
     = {| isEnabled := Some b;
          lastUpdate := Some later;
          version := version (storage (snd once));
          disabledDomains := disabledDomains (storage (snd once)) |}.
Proof.
  intros Hf. cbv zeta.
  destruct (toggleRuleset_run b w Hf) as (w1 & R1 & F1 & S1 & T1 & E1).
  destruct (toggleRuleset_run b (Clock.at_time later w1) F1)
    as (w2 & R2 & F2 & S2 & T2 & E2).
  rewrite R1. cbn [fst snd]. rewrite R2. cbn [fst snd].
  cbn [Clock.at_time storage sessionRules enabledRulesets clock] in S2, T2, E2.
  assert (M : forall l,
             string_mem ruleset_1
               (update_rulesets (if b then [ruleset_1] else [])
                                (if b then [] else [ruleset_1]) l) = b).
  { intros l. destruct b;
      [apply enabled_after_enable | apply disabled_after_disable]. }
  split; [reflexivity|]. split; [rewrite E1; apply M|].
  split; [rewrite S1; reflexivity|]. split; [rewrite S1; reflexivity|].
  split; [exact T1|].
  split; [unfold exemptionSet; rewrite S1; reflexivity|].
  split; [reflexivity|].
  split; [rewrite E2, E1; apply (update_rulesets_again b)|].
  split; [rewrite T2; exact T1|].
  rewrite S2. reflexivity.
Qed.

Lemma toggleRuleset_effect_witness :
  let w := fresh_session empty_storage RejectDuplicate in
  let once := run (toggleRuleset true) w in
  let twice := run (toggleRuleset true) (Clock.at_time 7 (snd once)) in
  faults w = []
  /\ string_mem ruleset_1 (enabledRulesets (snd once)) = true
  /\ isEnabled (storage (snd once)) = Some true
  /\ lastUpdate (storage (snd once)) = Some 0%Z
  /\ lastUpdate (storage (snd twice)) = Some 7%Z.
Proof.
  cbv zeta.
  destruct (@toggleRuleset_effect true
              (fresh_session empty_storage RejectDuplicate) 7 eq_refl)
    as (_ & H2 & H3 & H4 & _ & _ & _ & _ & _ & H10).
  split; [reflexivity|]. split; [exact H2|]. split; [exact H3|].
  split; [exact H4|]. rewrite H10. reflexivity.
Defined.

Lemma toggleRuleset_first_fails (b : bool) (w : world) (rest : list bool) :
  faults w = true :: rest ->
  exists w',
    run (toggleRuleset b) w = (inl tt, w')
    /\ storage w' = storage w
    /\ enabledRulesets w' = enabledRulesets w.
Proof.
  intros Hf. unfold toggleRuleset. run_step.
  unfold exec, next_fault. rewrite Hf. cbn.
  eexists. split; [reflexivity|]. cbn. auto.
Qed.

Lemma toggleRuleset_write_fails (b : bool) (w : world) (rest : list bool) :
  faults w = false :: true :: rest ->
  exists w',
    run (toggleRuleset b) w = (inl tt, w')
    /\ storage w' = storage w
    /\ enabledRulesets w'
       = update_rulesets (if b then [ruleset_1] else [])
                         (if b then [] else [ruleset_1])
                         (enabledRulesets w).
Proof.
  intros Hf. unfold toggleRuleset. run_step.
  unfold exec at 1, next_fault. rewrite Hf.
  cbn [perform fst snd is_rejected negb].
  rewrite run_bind, run_no_await. unfold exec, next_fault. cbn.
  eexists. split; [reflexivity|]. cbn. auto.
Qed.

(** X12: when the host fails the ruleset call of [toggleRuleset],
    nothing changes, the flag is not stored, and the function returns
    as if all were well; when it fails only the storage write that is
    not awaited, the ruleset is switched while the stored flag stays
    what it was. *)
Theorem toggleRuleset_failures (b : bool) (w : world) (rest : list bool) :
  let w1 := with_faults (true :: rest) w in
  let w2 := with_faults (false :: true :: rest) w in
  fst (run (toggleRuleset b) w1) = inl tt
  /\ storage (snd (run (toggleRuleset b) w1)) = storage w
  /\ enabledRulesets (snd (run (toggleRuleset b) w1)) = enabledRulesets w
  /\ fst (run (toggleRuleset b) w2) = inl tt
  /\ storage (snd (run (toggleRuleset b) w2)) = storage w
  /\ string_mem ruleset_1
       (enabledRulesets (snd (run (toggleRuleset b) w2))) = b.
Proof.
  cbv zeta.
  destruct (@toggleRuleset_first_fails b (with_faults (true :: rest) w)
              rest eq_refl) as (w' & R & S & E).
  destruct (@toggleRuleset_write_fails b
              (with_faults (false :: true :: rest) w) rest eq_refl)
    as (w'' & R' & S' & E').
  rewrite R, R'. cbn [fst snd]. rewrite S, E, S', E'.
  repeat split.
  destruct b; [apply enabled_after_enable | apply disabled_after_disable].
Qed.

(** X13: the startup listener, when the host fails no call, brings
    ruleset_1 to what the stored flag says, on unless the flag is
    false (so also when it was never stored); so a switch made with
    [toggleRuleset] holds in every later session that finds the same
    storage. *)
Theorem onStartup_restores (b : bool) (w later : world) :
  faults w = [] ->
  faults later = [] ->
  storage later = storage (snd (run (toggleRuleset b) w)) ->
  fst (run onStartup w) = inl tt
  /\ string_mem ruleset_1 (enabledRulesets (snd (run onStartup w)))
     = match isEnabled (storage w) with
       | Some false => false
       | _ => true
       end
  /\ string_mem ruleset_1 (enabledRulesets (snd (run onStartup later))) = b.
Proof.
  intros Hf Hl Hs.
  assert (G : forall u, faults u = [] ->
              fst (run onStartup u) = inl tt
              /\ string_mem ruleset_1 (enabledRulesets (snd (run onStartup u)))
                 = match isEnabled (storage u) with
                   | Some false => false
                   | _ => true
                   end).
  { intros u Hu. unfold onStartup. run_step.
    rewrite exec_no_faults by exact Hu.
    cbn [perform fst snd is_rejected negb items_of].
    set (flag := match isEnabled (storage u) with
                 | Some false => false
                 | _ => true
                 end).
    set (u1 := log_call storage_local_get true [] u).
    destruct (@toggleRuleset_run flag u1 eq_refl) as (u2 & R & _ & _ & _ & E).
    rewrite run_bind, R. cbn [fst snd run]. split; [reflexivity|].
    rewrite E. subst u1. cbn [enabledRulesets log_call].
    destruct flag;
      [apply enabled_after_enable | apply disabled_after_disable]. }
  destruct (G w Hf) as [G1 G2]. destruct (G later Hl) as [_ G3].
  split; [exact G1|]. split; [exact G2|].
  rewrite G3, Hs.
  destruct (toggleRuleset_run b w Hf) as (w1 & R & _ & S & _).
  rewrite R. cbn [snd]. rewrite S. destruct b; reflexivity.
Qed.

Lemma onStartup_restores_witness :
  let w := fresh_session empty_storage RejectDuplicate in
  let later :=
    fresh_session (storage (snd (run (toggleRuleset false) w)))
                  IgnoreDuplicate in
  faults w = []
  /\ faults later = []
  /\ string_mem ruleset_1 (enabledRulesets (snd (run onStartup w))) = true
  /\ string_mem ruleset_1 (enabledRulesets (snd (run onStartup later)))
     = false.
Proof.
  cbv zeta.
  destruct (@onStartup_restores false
              (fresh_session empty_storage RejectDuplicate)
              (fresh_session
                 (storage (snd (run (toggleRuleset false)
                    (fresh_session empty_storage RejectDuplicate))))
                 IgnoreDuplicate)
              eq_refl eq_refl eq_refl) as (_ & H2 & H3).
  split; [reflexivity|]. split; [reflexivity|].
  split; [exact H2 | exact H3].
Defined.

Lemma toggleRuleset_returns (b : bool) (w : world) :
  fst (run (toggleRuleset b) w) = inl tt.
Proof.
  unfold toggleRuleset.
  match goal with
  | |- fst (run (try_catch ?p _) _) = _ =>
      destruct (never_throws p tt w) as [[] H]
  end.
  exact H.
Qed.

Lemma global_toggle_leaves_overrides (en : bool) (dom : option jsstring)
      (tab : option Z) (w : world) :
  truthy_string dom = false ->
  let answer :=
    run (handleToggleBlocking
           {| req_isEnabled := Some en; req_domain := dom;
              req_tabId := tab |}) w in
  fst answer = inl (response_success en)
  /\ sessionRules (snd answer) = sessionRules w
  /\ exemptionSet (snd answer) = exemptionSet w.
Proof.
  intros Hd. cbv zeta. unfold handleToggleBlocking.
  cbn [req_isEnabled req_domain req_tabId]. rewrite Hd.
  rewrite run_try_catch, run_bind.
  pose proof (toggleRuleset_returns en w) as R.
  destruct (@run_leaves_overrides _ _ (toggleRuleset_leaves_overrides en) w)
    as [H1 H2].
  destruct (run (toggleRuleset en) w) as [[[]|e] w1]; [|discriminate].
  cbn in *. unfold exemptionSet. rewrite H1, H2. auto.
Qed.

(** X14: a toggle message whose isEnabled is not a boolean is
    answered with an error and no host call is made; a message with a
    boolean and no domain, or an empty one, switches the whole ruleset,
    is answered with success whatever the host does, and leaves the
    session rules and the exemption set as they are. *)
Theorem handleToggleBlocking_global (w : world) (en : bool)
        (dom : option jsstring) (tab : option Z) :
  run (handleToggleBlocking
         {| req_isEnabled := None; req_domain := dom; req_tabId := tab |}) w
  = (inl (response_error "Ungültige Anfrage"%string), w)
  /\ (let answer :=
        run (handleToggleBlocking
               {| req_isEnabled := Some en; req_domain := None;
                  req_tabId := tab |}) w in
      fst answer = inl (response_success en)
      /\ sessionRules (snd answer) = sessionRules w
      /\ exemptionSet (snd answer) = exemptionSet w)
  /\ (let answer :=
        run (handleToggleBlocking
               {| req_isEnabled := Some en; req_domain := Some [];
                  req_tabId := tab |}) w in
      fst answer = inl (response_success en)
      /\ sessionRules (snd answer) = sessionRules w
      /\ exemptionSet (snd answer) = exemptionSet w).
Proof.
  split; [reflexivity|]. split.
  - apply global_toggle_leaves_overrides. reflexivity.
  - apply global_toggle_leaves_overrides. reflexivity.
Qed.

(** X15: a toggle message for a domain and a tab: the tab is
    reloaded after the toggle, as the last host call, and the answer
    is success exactly when that reload is not failed; a failed reload
    is answered with an error, and the toggle stays made. *)
Theorem reload_decides_answer (w : world) (c : jschar) (d : jsstring)
        (en : bool) (tab : positive) :
  let toggled := snd (run (toggleRulesetFuerDomain (c :: d) en) w) in
  let answer :=
    run (handleToggleBlocking
           {| req_isEnabled := Some en; req_domain := Some (c :: d);
              req_tabId := Some (Z.pos tab) |}) w in
  exists ok,
    trace (snd answer) = trace toggled ++ [(tabs_reload (Z.pos tab), ok)]
    /\ storage (snd answer) = storage toggled
    /\ sessionRules (snd answer) = sessionRules toggled
    /\ if ok then fst answer = inl (response_success en)
       else exists e, fst answer = inl (response_error e).
Proof.
  cbv zeta. unfold handleToggleBlocking.
  cbn [req_isEnabled req_domain req_tabId truthy_string truthy_number
       or_empty_string or_zero].
  rewrite run_try_catch, !run_bind.
  pose proof (toggle_domain_returns (c :: d) en w) as R.
  destruct (run (toggleRulesetFuerDomain (c :: d) en) w) as [[[]|e] w1];
    [|discriminate].
  cbn [snd]. rewrite run_bind, run_await.
  unfold exec, next_fault.
  destruct (faults w1) as [|[|] rest]; cbn.
  - exists true. auto.
  - exists false. repeat split; eauto.
  - exists true. auto.
Qed.

(** ** Toggles for two domains *)

Lemma add_one (pol : duplicate_policy) (r : SessionRule)
      (t t' : list SessionRule) :
  add_rules pol [r] t = Some t' -> t' = t \/ t' = t ++ [r].
Proof.
  simpl. destruct (has_id (id r) t).
  - destruct pol; [discriminate|]. intros H. inversion H. auto.
  - intros H. inversion H. auto.
Qed.

Lemma rules_at_foreign (d : jsstring) (r : SessionRule) :
  (id r =? hashCode d)%Z = false ->
  (id r =? hashCode d + 1)%Z = false ->
  rules_at d [r] = [].
Proof. unfold rules_at. simpl. intros -> ->. reflexivity. Qed.

Lemma ids_apart_neq (d1 d2 : jsstring) :
  TwoDomains.ids_apart d1 d2 = true ->
  (hashCode d2 =? hashCode d1)%Z = false
  /\ (hashCode d2 =? hashCode d1 + 1)%Z = false
  /\ (hashCode d2 + 1 =? hashCode d1)%Z = false
  /\ (hashCode d2 + 1 =? hashCode d1 + 1)%Z = false.
Proof.
  unfold TwoDomains.ids_apart. intros H. apply negb_true_iff in H.
  apply orb_false_iff in H. destruct H as [H H3].
  apply orb_false_iff in H. destruct H as [H1 H2].
  apply Z.eqb_neq in H1, H2, H3.
  repeat split; apply Z.eqb_neq; lia.
Qed.

Lemma filter_filter_imp (A : Type) (p q : A -> bool) (l : list A) :
  (forall x, p x = true -> q x = true) ->
  filter p (filter q l) = filter p l.
Proof.
  intros H. induction l as [|x l IH]; [reflexivity|]. cbn [filter].
  destruct (q x) eqn:Q; cbn [filter].
  - rewrite IH. reflexivity.
  - destruct (p x) eqn:P; [|exact IH].
    rewrite (H x P) in Q. discriminate.
Qed.

Lemma table_after_other (pol : duplicate_policy) (d1 d2 : jsstring)
      (en : bool) (t : list SessionRule) :
  TwoDomains.ids_apart d1 d2 = true ->
  rules_at d1 (table_after pol d2 en t) = rules_at d1 t.
Proof.
  intros H. destruct (ids_apart_neq _ _ H) as (N1 & N2 & N3 & N4).
  unfold table_after. destruct en.
  - unfold rules_at, remove_rules. apply filter_filter_imp.
    intros r Hr. unfold mem_id. cbn [existsb]. rewrite orb_false_r.
    apply negb_true_iff. apply orb_true_iff in Hr.
    destruct Hr as [E|E]; apply Z.eqb_eq in E; rewrite E.
    + rewrite N1, N3. reflexivity.
    + rewrite N2, N4. reflexivity.
  - assert (F1 : rules_at d1 [initiatorRule (hashCode d2) d2] = [])
      by (apply rules_at_foreign; assumption).
    assert (F2 : rules_at d1 [requestRule (hashCode d2 + 1) d2] = [])
      by (apply rules_at_foreign; assumption).
    destruct (add_rules pol [initiatorRule (hashCode d2) d2] t)
      as [t1|] eqn:A1; [|reflexivity].
    assert (E1 : rules_at d1 t1 = rules_at d1 t).
    { destruct (add_one _ _ _ A1) as [->| ->]; [reflexivity|].
      rewrite rules_at_app, F1. apply app_nil_r. }
    destruct (add_rules pol [requestRule (hashCode d2 + 1) d2] t1)
      as [t2|] eqn:A2; [|exact E1].
    destruct (add_one _ _ _ A2) as [->| ->]; [exact E1|].
    rewrite rules_at_app, F2, app_nil_r. exact E1.
Qed.

(** X16: a toggle for one domain leaves another domain alone, when
    the two pairs of ids share no id and the host fails no call: the
    other domain is in the exemption set as before, and the rules at
    its ids are the same. *)
Theorem other_domain_untouched (d1 d2 : jsstring) (en : bool) (w : world) :
  faults w = [] ->
  d1 <> d2 ->
  TwoDomains.ids_apart d1 d2 = true ->
  let w' := snd (run (toggleRulesetFuerDomain d2 en) w) in
  includes (exemptionSet w') d1 = includes (exemptionSet w) d1
  /\ rules_at d1 (sessionRules w') = rules_at d1 (sessionRules w).
Proof.
  intros Hf Hd Ha. cbv zeta.
  destruct (toggle_run d2 en w Hf) as (w1 & R & _ & _ & S & T).
  rewrite R. cbn [snd]. split.
  - rewrite S.
    pose proof (mutate_other (exemptionSet w) en Hd) as M.
    rewrite <- !includes_In in M.
    destruct (includes (mutate d2 en (exemptionSet w)) d1),
             (includes (exemptionSet w) d1); intuition congruence.
  - rewrite T. apply table_after_other, Ha.
Qed.

Lemma other_domain_untouched_witness :
  let w := snd (run (toggleRulesetFuerDomain Samples.x_com false)
                    (fresh_session empty_storage RejectDuplicate)) in
  let w' := snd (run (toggleRulesetFuerDomain Samples.y_com false) w) in
  faults w = []
  /\ Samples.x_com <> Samples.y_com
  /\ TwoDomains.ids_apart Samples.x_com Samples.y_com = true
  /\ includes (exemptionSet w') Samples.x_com
     = includes (exemptionSet w) Samples.x_com
  /\ rules_at Samples.x_com (sessionRules w')
     = rules_at Samples.x_com (sessionRules w).
Proof.
  cbv zeta.
  assert (F : faults (snd (run (toggleRulesetFuerDomain Samples.x_com false)
                 (fresh_session empty_storage RejectDuplicate))) = [])
    by (vm_compute; reflexivity).
  assert (N : Samples.x_com <> Samples.y_com) by discriminate.
  assert (A : TwoDomains.ids_apart Samples.x_com Samples.y_com = true)
    by (vm_compute; reflexivity).
  destruct (@other_domain_untouched Samples.x_com Samples.y_com false _ F N A)
    as [H1 H2].
  split; [exact F|]. split; [exact N|]. split; [exact A|].
  split; [exact H1 | exact H2].
Defined.

End OverrideMore.

(** * Two toggles for two domains at once *)

Module SchedulerMore.
Import Background Scheduler TwoDomains OverrideFacts SchedulerFacts.





End SchedulerMore.

(** * The training data kept in memory *)

Module MLFacts.
Import MLData.

Section Entries.
Variable D : Type.

Lemma store_length (ty : string) (d : D) (now : Z) (td : list (entry D)) :
  length td <= 5000 ->
  length (storeTrainingData ty d now td) <= 5000.
Proof.
  intros H. unfold storeTrainingData, slice_last.
  rewrite length_app. cbn [length].
  destruct (5000 <? length td + 1) eqn:E.
  - rewrite length_skipn, length_app. cbn [length]. lia.
  - apply Nat.ltb_ge in E. rewrite length_app. cbn [length]. lia.
Qed.

Lemma cleanup_length (now : Z) (td : list (entry D)) :
  length (cleanupTrainingData now td) <= length td.
Proof.
  unfold cleanupTrainingData. apply PrecompilerMore.length_filter_le.
Qed.

Lemma changes_length (cs : list (change D)) :
  forall td,
    length td <= 5000 -> length (fold_left apply_change cs td) <= 5000.
Proof.
  induction cs as [|c cs IH]; intros td H; [exact H|].
  cbn [fold_left]. apply IH. destruct c as [ty d now|now]; cbn [apply_change].
  - apply store_length, H.
  - pose proof (cleanup_length now td). lia.
Qed.

(** X18: starting empty, [trainingData] never holds more than 5000
    entries, whatever calls of [storeTrainingData] and runs of the
    cleanup follow one another. *)
Theorem trainingData_bounded (cs : list (change D)) :
  length (fold_left apply_change cs []) <= 5000.
Proof. apply changes_length. simpl. lia. Qed.

(** X19: [storeTrainingData] always keeps the new entry, as the last
    one, in front of it the most recent of the old entries in their
    order; below 5000 old entries none is dropped, and from 5000 on
    the list is cut to its last 2500 entries, the new one among them. *)
Theorem store_keeps_newest (ty : string) (d : D) (now : Z)
        (td : list (entry D)) :
  exists dropped kept,
    td = dropped ++ kept
    /\ storeTrainingData ty d now td
       = kept ++ [{| type := ty; data := d; timestamp := now |}]
    /\ (length td < 5000 -> dropped = [])
    /\ (5000 <= length td ->
        length (storeTrainingData ty d now td) = 2500).
Proof.
  unfold storeTrainingData, slice_last.
  rewrite length_app. cbn [length].
  destruct (5000 <? length td + 1) eqn:E.
  - apply Nat.ltb_lt in E.
    exists (firstn (length td + 1 - 2500) td),
           (skipn (length td + 1 - 2500) td).
    split; [symmetry; apply firstn_skipn|]. split.
    + rewrite skipn_app.
      replace (length td + 1 - 2500 - length td) with 0 by lia.
      reflexivity.
    + split; [lia|]. intros _.
      rewrite length_skipn, length_app. cbn [length]. lia.
  - apply Nat.ltb_ge in E. exists [], td.
    split; [reflexivity|]. split; [reflexivity|].
    split; [reflexivity | lia].
Qed.

End Entries.

End MLFacts.

(** * The request fingerprints *)

Module FingerprintFacts.
Import Fingerprint PrecompilerFacts.

Lemma split_nonempty (sep : jschar) (s : jsstring) : split sep s <> [].
Proof.
  destruct s as [|c r]; simpl; [discriminate|].
  destruct (c =? sep)%Z; [discriminate|].
  destruct (split sep r); discriminate.
Qed.

Lemma split_free (sep : jschar) (s : jsstring) :
  Forall (fun p => ~ In sep p) (split sep s).
Proof.
  induction s as [|c r IH]; simpl.
  - constructor; [tauto | constructor].
  - destruct (c =? sep)%Z eqn:E.
    + constructor; [tauto | exact IH].
    + apply Z.eqb_neq in E. destruct (split sep r) as [|l ls].
      * constructor; [|constructor]. simpl. intros [H|[]]. congruence.
      * inversion IH; subst. constructor; [|assumption].
        simpl. intros [H|H]; [congruence | tauto].
Qed.

(** Joining the pieces gives the string back. *)
Lemma join_split (sep : jschar) (s : jsstring) : join sep (split sep s) = s.
Proof.
  induction s as [|c r IH]; simpl; [reflexivity|].
  destruct (c =? sep)%Z eqn:E.
  - apply Z.eqb_eq in E. subst c.
    destruct (split sep r) as [|l ls] eqn:S.
    + exfalso. apply (split_nonempty _ _ S).
    + simpl. f_equal. exact IH.
  - destruct (split sep r) as [|l ls] eqn:S.
    + exfalso. apply (split_nonempty _ _ S).
    + destruct ls; simpl in *; f_equal; exact IH.
Qed.

Lemma split_piece (sep : jschar) (p : jsstring) :
  ~ In sep p -> split sep p = [p].
Proof.
  induction p as [|c p IH]; simpl; [reflexivity|].
  intros H. destruct (c =? sep)%Z eqn:E.
  - apply Z.eqb_eq in E. exfalso. apply H. left. exact E.
  - rewrite IH; [reflexivity|]. intros Hin. apply H. right. exact Hin.
Qed.

Lemma split_app_sep (sep : jschar) (p x : jsstring) :
  ~ In sep p -> split sep (p ++ sep :: x) = p :: split sep x.
Proof.
  induction p as [|c p IH]; simpl.
  - intros _. rewrite Z.eqb_refl. reflexivity.
  - intros H. destruct (c =? sep)%Z eqn:E.
    + apply Z.eqb_eq in E. exfalso. apply H. left. exact E.
    + rewrite IH; [reflexivity|]. intros Hin. apply H. right. exact Hin.
Qed.

(** Cutting a joined list gives the list back, when no piece holds
    the separator. *)
Lemma split_join (sep : jschar) (parts : list jsstring) :
  parts <> [] ->
  Forall (fun p => ~ In sep p) parts ->
  split sep (join sep parts) = parts.
Proof.
  induction parts as [|p rest IH]; [congruence|]. intros _ H.
  inversion H as [|? ? Hp Hrest]; subst.
  destruct rest as [|q rest].
  - simpl. apply split_piece, Hp.
  - change (join sep (p :: q :: rest)) with (p ++ sep :: join sep (q :: rest)).
    rewrite split_app_sep by exact Hp.
    rewrite IH; [reflexivity | discriminate | exact Hrest].
Qed.

Lemma cut_label (part : jsstring) :
  (if 3 <? length part then JS.substring part 0 3 ++ lit "*"%string else part)
  = if 3 <? length part then firstn 3 part ++ [42%Z] else part.
Proof.
  destruct (3 <? length part) eqn:E; [|reflexivity].
  apply Nat.ltb_lt in E. rewrite substring_ordered by lia. reflexivity.
Qed.

Lemma anonymize_cons (part q : jsstring) (rest : list jsstring) :
  anonymize (part :: q :: rest)
  = (if 3 <? length part then firstn 3 part ++ [42%Z] else part)
    :: anonymize (q :: rest).
Proof. cbn [anonymize]. rewrite cut_label. reflexivity. Qed.

Lemma anonymize_length (parts : list jsstring) :
  length (anonymize parts) = length parts.
Proof.
  induction parts as [|p [|q rest] IH]; try reflexivity.
  rewrite anonymize_cons. cbn [length]. rewrite IH. reflexivity.
Qed.

Lemma anonymize_last (parts : list jsstring) :
  last (anonymize parts) [] = last parts [].
Proof.
  induction parts as [|p [|q rest] IH]; try reflexivity.
  rewrite anonymize_cons.
  change (last (?x :: anonymize (q :: rest)) [])
    with (match anonymize (q :: rest) with
          | [] => x
          | _ :: _ => last (anonymize (q :: rest)) []
          end).
  pose proof (anonymize_length (q :: rest)) as L.
  destruct (anonymize (q :: rest)); [discriminate|]. exact IH.
Qed.

Lemma anonymize_idempotent (parts : list jsstring) :
  anonymize (anonymize parts) = anonymize parts.
Proof.
  induction parts as [|p [|q rest] IH]; try reflexivity.
  rewrite anonymize_cons.
  pose proof (anonymize_length (q :: rest)) as L.
  destruct (anonymize (q :: rest)) as [|q' rest'] eqn:A; [discriminate|].
  rewrite anonymize_cons, IH. f_equal.
  destruct (3 <? length p) eqn:E; [|rewrite E; reflexivity].
  apply Nat.ltb_lt in E.
  assert (L3 : length (firstn 3 p) = 3) by (rewrite length_firstn; lia).
  replace (3 <? length (firstn 3 p ++ [42%Z])) with true
    by (symmetry; apply Nat.ltb_lt; rewrite length_app, L3; simpl; lia).
  f_equal. rewrite firstn_app, L3, Nat.sub_diag, firstn_O, app_nil_r.
  apply firstn_all2. lia.
Qed.

Lemma anonymize_free (parts : list jsstring) :
  Forall (fun p => ~ In 46%Z p) parts ->
  Forall (fun p => ~ In 46%Z p) (anonymize parts).
Proof.
  induction parts as [|p [|q rest] IH]; intros H; try exact H.
  rewrite anonymize_cons. inversion H; subst.
  constructor; [|apply IH; assumption].
  destruct (3 <? length p); [|assumption].
  intros Hin. apply in_app_or in Hin. destruct Hin as [Hin|[Hin|[]]].
  - apply H2. rewrite <- (firstn_skipn 3 p). apply in_or_app. left. exact Hin.
  - discriminate.
Qed.

Lemma anonymize_short (parts : list jsstring) :
  Forall (fun p => length p <= 4) (removelast (anonymize parts)).
Proof.
  induction parts as [|p [|q rest] IH]; try (simpl; constructor).
  rewrite anonymize_cons.
  pose proof (anonymize_length (q :: rest)) as L.
  destruct (anonymize (q :: rest)) as [|q' rest'] eqn:A; [discriminate|].
  cbn [removelast]. constructor; [|exact IH].
  destruct (3 <? length p) eqn:E.
  - rewrite length_app, length_firstn. cbn [length]. lia.
  - apply Nat.ltb_ge in E. lia.
Qed.

Lemma split_pattern (domain : jsstring) :
  split 46%Z (domainPattern domain) = anonymize (split 46%Z domain).
Proof.
  unfold domainPattern. cbv zeta. apply split_join.
  - pose proof (anonymize_length (split 46%Z domain)) as L.
    pose proof (split_nonempty 46%Z domain) as N.
    destruct (anonymize (split 46%Z domain)); [|discriminate].
    destruct (split 46%Z domain); [congruence | discriminate].
  - apply anonymize_free, split_free.
Qed.

Lemma domainPattern_idempotent (domain : jsstring) :
  domainPattern (domainPattern domain) = domainPattern domain.
Proof.
  unfold domainPattern at 1. cbv zeta.
  rewrite split_pattern, anonymize_idempotent. reflexivity.
Qed.

(** X20: the domain pattern of a url has as many labels as the host
    name [extractDomain] finds in the url and the same last label;
    every label before the last has at most four characters.  A
    string that is no url, on which the constructor throws, has the
    empty pattern; and a url whose host name is the pattern of some
    url has that same pattern. *)
Theorem getDomainPattern_shape (URL : URLConstructor) (url : jsstring) :
  let domain := extractDomain URL url in
  let pattern := getDomainPattern URL url in
  length (split 46%Z pattern) = length (split 46%Z domain)
  /\ last (split 46%Z pattern) [] = last (split 46%Z domain) []
  /\ Forall (fun label => length label <= 4)
            (removelast (split 46%Z pattern))
  /\ (URL url = None -> pattern = [])
  /\ (forall url' : jsstring,
        extractDomain URL url' = pattern ->
        getDomainPattern URL url' = pattern).
Proof.
  cbv zeta. unfold getDomainPattern. cbv zeta. rewrite !split_pattern.
  split; [apply anonymize_length|]. split; [apply anonymize_last|].
  split; [apply anonymize_short|]. split.
  - intros H. unfold extractDomain. rewrite H. reflexivity.
  - intros url' H. rewrite H. apply domainPattern_idempotent.
Qed.

Lemma pathSegment_cases (segment : jsstring) :
  pathSegment segment = lit "[NUMBER]"%string
  \/ pathSegment segment = lit "[LONG]"%string
  \/ (pathSegment segment = segment
      /\ length segment <= 10
      /\ all_digits segment = false).
Proof.
  unfold pathSegment. destruct (length segment =? 0) eqn:E0.
  - apply Nat.eqb_eq in E0. right. right.
    unfold all_digits. rewrite E0. simpl. repeat split. lia.
  - destruct (all_digits segment) eqn:D; [auto|].
    destruct (10 <? length segment) eqn:L; [auto|].
    apply Nat.ltb_ge in L. auto.
Qed.

Lemma pathSegment_idempotent (segment : jsstring) :
  pathSegment (pathSegment segment) = pathSegment segment.
Proof.
  destruct (pathSegment_cases segment) as [H|[H|(H & L & D)]];
    rewrite H; try reflexivity.
  exact H.
Qed.

Lemma pathSegment_free (segment : jsstring) :
  ~ In 47%Z segment -> ~ In 47%Z (pathSegment segment).
Proof.
  intros Hs. destruct (pathSegment_cases segment) as [H|[H|(H & _)]];
    rewrite H; try exact Hs.
  - vm_compute. intuition discriminate.
  - vm_compute. intuition discriminate.
Qed.

Lemma split_path_pattern (path : jsstring) :
  split 47%Z (pathPattern path) = map pathSegment (split 47%Z path).
Proof.
  unfold pathPattern. cbv zeta. apply split_join.
  - pose proof (split_nonempty 47%Z path) as N.
    destruct (split 47%Z path); [congruence | discriminate].
  - pose proof (split_free 47%Z path) as F.
    induction F as [|x l Hx Hl IH]; simpl; constructor; auto.
    apply pathSegment_free, Hx.
Qed.

Lemma pathPattern_idempotent (path : jsstring) :
  pathPattern (pathPattern path) = pathPattern path.
Proof.
  unfold pathPattern at 1. cbv zeta. rewrite split_path_pattern, map_map.
  unfold pathPattern. cbv zeta. f_equal. apply map_ext.
  apply pathSegment_idempotent.
Qed.

(** X21: the path pattern of a url has as many segments as the path
    [extractPath] finds in the url; every segment of it is [NUMBER],
    [LONG], or a segment of the path that has at most ten characters
    and is not a number; so no number and no segment of more than ten
    characters gets through.  A string that is no url, on which the
    constructor throws, has the empty pattern; and a url whose path is
    the pattern of some url has that same pattern. *)
Theorem getPathPattern_shape (URL : URLConstructor) (url : jsstring) :
  let path := extractPath URL url in
  let pattern := getPathPattern URL url in
  length (split 47%Z pattern) = length (split 47%Z path)
  /\ Forall (fun segment =>
               segment = lit "[NUMBER]"%string
               \/ segment = lit "[LONG]"%string
               \/ (In segment (split 47%Z path)
                   /\ length segment <= 10
                   /\ all_digits segment = false))
            (split 47%Z pattern)
  /\ (URL url = None -> pattern = [])
  /\ (forall url' : jsstring,
        extractPath URL url' = pattern ->
        getPathPattern URL url' = pattern).
Proof.
  cbv zeta. unfold getPathPattern. cbv zeta. rewrite !split_path_pattern.
  split; [apply length_map|]. split; [|split].
  - apply Forall_forall. intros seg Hseg.
    apply in_map_iff in Hseg. destruct Hseg as (x & <- & Hx).
    destruct (pathSegment_cases x) as [H|[H|(H & L & D)]]; auto.
    rewrite H. auto.
  - intros H. unfold extractPath. rewrite H. reflexivity.
  - intros url' H. rewrite H. apply pathPattern_idempotent.
Qed.

End FingerprintFacts.

(** * What the popup is told *)

Module PopupFacts.
Import Background Popup OverrideFacts.

(** X22: what the popup is told about the current tab agrees with
    the toggle before it: after [toggleRulesetFuerDomain] for the host
    name of the tab, with a host that fails no call,
    [handleGetCurrentTab] reports the tab, its domain and
    isEnabledForDomain equal to the flag of the toggle. *)
Theorem popup_shows_toggle (d : jsstring) (en : bool) (w : world)
        (tab : Tab) (others : list Tab) :
  faults w = [] ->
  hostname tab = inr d ->
  fst (run (handleGetCurrentTab (inr (tab :: others)))
           (snd (run (toggleRulesetFuerDomain d en) w)))
  = inl (tab_info (tab_id tab) d (tab_url tab) en).
Proof.
  intros Hf Hh.
  destruct (toggle_run d en w Hf) as (w1 & R & F & _ & S & _).
  rewrite R. cbn [snd]. unfold handleGetCurrentTab. rewrite Hh.
  rewrite run_try_catch, run_bind, run_await, exec_no_faults by exact F.
  cbn [perform fst snd is_rejected negb items_of run].
  change (or_empty (disabledDomains (storage w1))) with (exemptionSet w1).
  rewrite S, mutate_includes, negb_involutive. reflexivity.
Qed.

Lemma popup_shows_toggle_witness :
  let tab := {| tab_id := 5; tab_url := lit "https://x.com/"%string;
                hostname := inr Samples.x_com |} in
  let w := fresh_session empty_storage RejectDuplicate in
  faults w = []
  /\ hostname tab = inr Samples.x_com
  /\ fst (run (handleGetCurrentTab (inr [tab]))
              (snd (run (toggleRulesetFuerDomain Samples.x_com false) w)))
     = inl (tab_info 5 Samples.x_com (lit "https://x.com/"%string) false).
Proof.
  cbv zeta. split; [reflexivity|]. split; [reflexivity|].
  exact (@popup_shows_toggle Samples.x_com false
           (fresh_session empty_storage RejectDuplicate)
           {| tab_id := 5; tab_url := lit "https://x.com/"%string;
              hostname := inr Samples.x_com |} [] eq_refl eq_refl).
Defined.

(** The message handler takes every error itself. *)
Lemma never_throws_handler (request : request) (w : world) :
  exists answer, fst (run (handleToggleBlocking request) w) = inl answer.
Proof.
  unfold handleToggleBlocking.
  destruct (req_isEnabled request) as [enabled|].
  - rewrite run_try_catch.
    match goal with
    | |- context [run ?p w] => destruct (run p w) as [[answer|error] w1]
    end; eexists; reflexivity.
  - eexists. reflexivity.
Qed.

(** The handler with the cache answers and acts as the handler
    without it; the cache is emptied with a success and kept with an
    error. *)
Lemma statsCache_after_toggle (request : request) (c : cache) (w : world) :
  run (handleToggleBlocking_statsCache request c) w
  = match run (handleToggleBlocking request) w with
    | (inl (response_success enabled), w') =>
        (inl (response_success enabled,
              {| statsCache := None; cacheTime := cacheTime c |}), w')
    | (inl (response_error error), w') => (inl (response_error error, c), w')
    | (inr error, w') => (inr error, w')
    end.
Proof.
  unfold handleToggleBlocking_statsCache, handleToggleBlocking.
  destruct (req_isEnabled request) as [enabled|]; [|reflexivity].
  rewrite !run_try_catch, !run_bind.
  match goal with
  | |- context [run ?p w] => destruct (run p w) as [[[]|error] w1]
  end; reflexivity.
Qed.

(** X23: the statistics are cached for one second, until a toggle
    goes through.  Starting with an empty cache, the answer
    [handleGetStats] builds at the time [now] is given again, and the
    cache left alone, by a call less than 1000 ms later that finds the
    cache as the first call left it, whatever the host would say
    then, also when it would fail; the rule count in the answer is 91
    when ruleset_1 is enabled and 0 when not; a failed host call is
    answered with its error and caches nothing.  A toggle message in
    between that is answered with success empties the cache, so the
    next call, however soon, builds its answer from the host and
    caches it; a toggle message answered with an error leaves the
    cache as it was. *)
Theorem stats_cached_one_second (now now' later later' : Z) (c : cache)
        (st : Storage) (rs : list string) (items' : string + Storage)
        (rulesets' : string + list string) (e : string)
        (request : request) (w : world) :
  statsCache c = None ->
  (later - now < 1000)%Z ->
  let first := handleGetStats now now' c (inr st) (inr rs) in
  let toggled := run (handleToggleBlocking_statsCache request (snd first)) w in
  handleGetStats later later' (snd first) items' rulesets' = first
  /\ (exists s, fst first = stats_of s
                /\ rulesCount s
                   = if string_mem ruleset_1 rs then 91%Z else 0%Z)
  /\ handleGetStats now now' c (inl e) (inr rs) = (stats_error e, c)
  /\ handleGetStats now now' c (inr st) (inl e) = (stats_error e, c)
  /\ match fst toggled with
     | inl (response_success _, c') =>
         statsCache c' = None
         /\ forall (st' : Storage) (rs' : list string),
              exists s,
                handleGetStats later later' c' (inr st') (inr rs')
                = (stats_of s, {| statsCache := Some s; cacheTime := later |})
                /\ rulesCount s
                   = (if string_mem ruleset_1 rs' then 91%Z else 0%Z)
                /\ stats_isEnabled s
                   = match isEnabled st' with
                     | Some false => false
                     | _ => true
                     end
     | inl (response_error _, c') => c' = snd first
     | inr _ => False
     end.
Proof.
  intros Hc Hl. cbv zeta.
  assert (F : forall items rulesets,
             handleGetStats now now' c items rulesets
             = fetchStats now now' c items rulesets).
  { intros items rulesets. unfold handleGetStats. rewrite Hc. reflexivity. }
  rewrite !F. cbn [fetchStats fst snd].
  split.
  { unfold handleGetStats. cbn [statsCache cacheTime].
    replace (later - now <? STATS_CACHE_DURATION)%Z with true
      by (symmetry; apply Z.ltb_lt; exact Hl).
    reflexivity. }
  split; [eexists; split; reflexivity|].
  split; [reflexivity|]. split; [reflexivity|].
  rewrite statsCache_after_toggle.
  destruct (never_throws_handler request w) as [answer H].
  destruct (run (handleToggleBlocking request) w) as [[answer'|error] w1];
    cbn [fst] in *; [|discriminate].
  destruct answer' as [error|enabled]; cbn [fst]; [reflexivity|].
  split; [reflexivity|]. intros st' rs'.
  unfold handleGetStats. cbn [statsCache fetchStats].
  eexists. split; [reflexivity|]. split; reflexivity.
Qed.

Lemma stats_cached_one_second_witness :
  let c := {| statsCache := None; cacheTime := 0 |} in
  let first :=
    handleGetStats 5000 5002 c (inr empty_storage) (inr [ruleset_1]) in
  statsCache c = None
  /\ (5999 - 5000 < 1000)%Z
  /\ handleGetStats 5999 6001 (snd first) (inl "gone"%string) (inr [])
     = first.
Proof.
  cbv zeta. split; [reflexivity|]. split; [reflexivity|].
  exact (proj1 (@stats_cached_one_second 5000 5002 5999 6001
                  {| statsCache := None; cacheTime := 0 |}
                  empty_storage [ruleset_1] (inl "gone"%string) (inr [])
                  "gone"%string (toggle_request Samples.x_com false)
                  (fresh_session empty_storage RejectDuplicate)
                  eq_refl eq_refl)).
Defined.

End PopupFacts.
